(** * plog: entry assembly, caller resolution, escaping and text rendering

    A shallow embedding of the logging pipeline of the repository: the [log]
    method with [fillLoc], [helper] and [trimCallerPath] (logger.go), the
    escaping engine and [textFormatter] with [writeIndent] (text.go), and
    the properties the specification states about them.  The setters,
    [Fatal], the writers logger.go carries and [With] on slices are embedded
    as well, with further properties of the code.

    - Go strings are byte strings: they are modelled by [string], one
      [ascii] per byte.  A [for _, r := range str] loop decodes UTF-8 and is
      modelled by [runes]; [WriteRune] encodes and is [encodeRune].  Runes,
      levels, line numbers and instants are [Z].
    - A value of type [interface{}] is a [value], by dynamic type.
    - What a function writes to a buffer is the string it returns; a
      run-time panic is [None].
    - The call stack is an input: a list of frames, most recent first.
    - The bound fields of a logger are a list; where the sharing of the
      array under the slice matters they live in a heap of arrays (module
      [Slices]).
    - logger.go and text.go are of two revisions of the repository ([log]
      is a method of [*logger], [textFormatter] one of [*Logger]); the model
      hands the sequence [log] assembles to [textFormatter] of text.go.
      Each revision puts angle brackets around the caller, once: what is
      stated of the caller field is stated for each file on its own.
    - The declarations the sources use and do not contain (reserved keys,
      [Level] constants, styles, Unicode tables, the JSON formatter) are
      parameters: the records [Decls] and [Styles] and the function
      [inPrintRanges]. *)

From Equations Require Import Equations.
From Stdlib Require Import ZArith List String Ascii Bool Lia DecimalString.
Import ListNotations.

Local Open Scope string_scope.
Local Open Scope Z_scope.

(** ** Bytes and strings *)

Module Bytes.

(** The numeric value of a byte. *)
Definition byteZ (c : ascii) : Z := Z.of_N (N_of_ascii c).

(** Go's conversion [byte(x)]: truncation to the low eight bits. *)
Definition zbyte (z : Z) : ascii := ascii_of_N (Z.to_N (z mod 256)).

Definition LF : ascii := "010"%char.
Definition DQ : ascii := "034"%char.
Definition BS : ascii := "092"%char.

(** One-byte strings. *)
Definition str1 (c : ascii) : string := String c EmptyString.

(** [str[n:]] for [n <= len(str)]. *)
Fixpoint dropBytes (n : nat) (s : string) : string :=
  match n, s with
  | O, _ => s
  | S _, EmptyString => EmptyString
  | S m, String _ t => dropBytes m t
  end.

(** [str[:n]] for [n <= len(str)]. *)
Fixpoint takeBytes (n : nat) (s : string) : string :=
  match n, s with
  | O, _ => EmptyString
  | S _, EmptyString => EmptyString
  | S m, String c t => String c (takeBytes m t)
  end.

(** [strings.IndexByte]: position of the first occurrence, [None] for -1. *)
Fixpoint IndexByte (s : string) (c : ascii) : option nat :=
  match s with
  | EmptyString => None
  | String a t =>
      if Ascii.eqb a c then Some O
      else match IndexByte t c with
           | Some i => Some (S i)
           | None => None
           end
  end.

(** [strings.LastIndexByte]: position of the last occurrence. *)
Fixpoint LastIndexByte (s : string) (c : ascii) : option nat :=
  match s with
  | EmptyString => None
  | String a t =>
      match LastIndexByte t c with
      | Some i => Some (S i)
      | None => if Ascii.eqb a c then Some O else None
      end
  end.

(** [strings.Contains(s, "\n")], the only use the renderer makes of it. *)
Definition containsByte (s : string) (c : ascii) : bool :=
  match IndexByte s c with Some _ => true | None => false end.

(** Concatenation of a list of pieces, in order. *)
Fixpoint joinAll (l : list string) : string :=
  match l with
  | [] => EmptyString
  | x :: t => x ++ joinAll t
  end.

End Bytes.
Import Bytes.

(** ** UTF-8, as the Go runtime decodes and encodes it *)

Module UTF8.

Definition RuneError : Z := 0xFFFD.
Definition MaxRune : Z := 0x10FFFF.
Definition surrogateMin : Z := 0xD800.
Definition surrogateMax : Z := 0xDFFF.

(** [utf8.ValidRune]. *)
Definition ValidRune (r : Z) : bool :=
  ((0 <=? r) && (r <? surrogateMin)) || ((surrogateMax <? r) && (r <=? MaxRune)).

(** A continuation byte: [locb <= b && b <= hicb]. *)
Definition isCont (c : ascii) : bool := (0x80 <=? byteZ c) && (byteZ c <=? 0xBF).

(** The runtime's [decoderune] at the start of a non-empty string whose first
    byte is [c0] and whose remaining bytes are [t]: the rune and the number
    of bytes it takes.  Bytes below 0x80 stand for themselves; an invalid or
    truncated sequence gives [RuneError] and width 1. *)
Definition decoderune (c0 : ascii) (t : string) : Z * nat :=
  let b0 := byteZ c0 in
  if b0 <? 0x80 then (b0, 1%nat)
  else if (0xC0 <=? b0) && (b0 <? 0xE0) then
    match t with
    | String c1 _ =>
        if isCont c1 then
          let r := Z.lor (Z.shiftl (Z.land b0 0x1F) 6) (Z.land (byteZ c1) 0x3F) in
          if 0x7F <? r then (r, 2%nat) else (RuneError, 1%nat)
        else (RuneError, 1%nat)
    | _ => (RuneError, 1%nat)
    end
  else if (0xE0 <=? b0) && (b0 <? 0xF0) then
    match t with
    | String c1 (String c2 _) =>
        if isCont c1 && isCont c2 then
          let r := Z.lor (Z.lor (Z.shiftl (Z.land b0 0x0F) 12)
                                (Z.shiftl (Z.land (byteZ c1) 0x3F) 6))
                         (Z.land (byteZ c2) 0x3F) in
          if (0x7FF <? r) && negb ((surrogateMin <=? r) && (r <=? surrogateMax))
          then (r, 3%nat) else (RuneError, 1%nat)
        else (RuneError, 1%nat)
    | _ => (RuneError, 1%nat)
    end
  else if (0xF0 <=? b0) && (b0 <? 0xF8) then
    match t with
    | String c1 (String c2 (String c3 _)) =>
        if isCont c1 && isCont c2 && isCont c3 then
          let r := Z.lor (Z.lor (Z.lor (Z.shiftl (Z.land b0 0x07) 18)
                                       (Z.shiftl (Z.land (byteZ c1) 0x3F) 12))
                                (Z.shiftl (Z.land (byteZ c2) 0x3F) 6))
                         (Z.land (byteZ c3) 0x3F) in
          if (0xFFFF <? r) && (r <=? MaxRune) then (r, 4%nat) else (RuneError, 1%nat)
        else (RuneError, 1%nat)
    | _ => (RuneError, 1%nat)
    end
  else (RuneError, 1%nat).

(** The runes a [range] loop over [s] yields, in order. *)
Equations? runes (s : string) : list Z by wf (String.length s) lt :=
  runes EmptyString := [];
  runes (String c t) :=
    fst (decoderune c t) :: runes (dropBytes (snd (decoderune c t) - 1) t).
Proof.
  assert (H : forall n s, (String.length (dropBytes n s) <= String.length s)%nat).
  { induction n as [|n IH]; intros [|a s]; simpl; try lia.
    specialize (IH s); lia. }
  specialize (H (snd (decoderune c t) - 1)%nat t). lia.
Qed.

(** [utf8.AppendRune], which [strings.Builder.WriteRune] appends. *)
Definition encodeRune (r : Z) : string :=
  if (0 <=? r) && (r <=? 0x7F) then str1 (zbyte r)
  else if (0 <=? r) && (r <=? 0x7FF) then
    String (zbyte (Z.lor 0xC0 (Z.shiftr r 6)))
      (str1 (zbyte (Z.lor 0x80 (Z.land r 0x3F))))
  else
    let r := if negb (ValidRune r) then RuneError else r in
    if r <=? 0xFFFF then
      String (zbyte (Z.lor 0xE0 (Z.shiftr r 12)))
        (String (zbyte (Z.lor 0x80 (Z.land (Z.shiftr r 6) 0x3F)))
           (str1 (zbyte (Z.lor 0x80 (Z.land r 0x3F)))))
    else
      String (zbyte (Z.lor 0xF0 (Z.shiftr r 18)))
        (String (zbyte (Z.lor 0x80 (Z.land (Z.shiftr r 12) 0x3F)))
           (String (zbyte (Z.lor 0x80 (Z.land (Z.shiftr r 6) 0x3F)))
              (str1 (zbyte (Z.lor 0x80 (Z.land r 0x3F)))))).

End UTF8.
Import UTF8.

(** ** The escaping engine (text.go) *)

Section Escaping.

(** [unicode.In(r, unicode.PrintRanges...)]: the Unicode tables of letters,
    marks, numbers, punctuation and symbols, consulted above Latin-1. *)
Variable inPrintRanges : Z -> bool.

(** [unicode.IsPrint]: for Latin-1 the property table (space, 0x21..0x7E and
    0xA1..0xFF without the soft hyphen 0xAD), the range tables above it. *)
Definition IsPrint (r : Z) : bool :=
  if (0 <=? r) && (r <=? 0xFF) then
    ((0x20 <=? r) && (r <=? 0x7E)) || ((0xA1 <=? r) && (r <=? 0xFF) && negb (r =? 0xAD))
  else inPrintRanges r.

Definition needsEscaping (str : string) : bool :=
  existsb (fun b => negb (IsPrint b) || (b =? 34)) (runes str).

Definition lowerhex : string := "0123456789abcdef".

(** [lowerhex[i]]. *)
Definition hexAt (i : Z) : ascii :=
  match String.get (Z.to_nat i) lowerhex with
  | Some c => c
  | None => "0"%char
  end.

(** The [for s := hi; s >= 0; s -= 4] loops: one hexadecimal digit of [r]
    per shift, most significant first. *)
Definition hexDigits (shifts : list Z) (r : Z) : string :=
  string_of_list_ascii (map (fun s => hexAt (Z.land (Z.shiftr r s) 0xF)) shifts).

(** What one iteration of the loop of [escapeStringForOutput] appends to the
    builder for the rune [r]. *)
Definition escapeRune (escapeQuotes : bool) (r : Z) : string :=
  if escapeQuotes && (r =? 34) then String BS (str1 DQ)
  else if IsPrint r then encodeRune r
  else if r =? 7 then "\a"
  else if r =? 8 then "\b"
  else if r =? 12 then "\f"
  else if r =? 10 then "\n"
  else if r =? 13 then "\r"
  else if r =? 9 then "\t"
  else if r =? 11 then "\v"
  else if r <? 32 then
    "\x" ++ String (hexAt (Z.shiftr (r mod 256) 4))
              (str1 (hexAt (Z.land (r mod 256) 0xF)))
  else if negb (ValidRune r) then "\u" ++ hexDigits [12; 8; 4; 0] RuneError
  else if r <? 0x10000 then "\u" ++ hexDigits [12; 8; 4; 0] r
  else "\U" ++ hexDigits [28; 24; 20; 16; 12; 8; 4; 0] r.

Definition escapeStringForOutput (str : string) (escapeQuotes : bool) : string :=
  if negb (needsEscaping str) then str
  else joinAll (map (escapeRune escapeQuotes) (runes str)).

(** [isNormal]: the rune may stand in an unquoted value. *)
Definition isNormal (r : Z) : bool := (45 <=? r) && (r <=? 126).

Definition needsQuoting (str : string) : bool :=
  existsb (fun r => negb (isNormal r)) (runes str).

End Escaping.

(** ** Values, reserved keys, levels and styles *)

(** A value of type [interface{}], by dynamic type.  The renderer only tells
    strings, levels, times and nil apart; a value of any other dynamic type
    is given by the two display forms [fmt] produces for it. *)
Inductive value : Type :=
| VNil
| VString (s : string)
| VLevel (l : Z)
| VTime (t : Z)
| VOther (v plusv : string).

(** The style variables of the package as applied through the logger's
    renderer: [X.Renderer(l.re).Render(s)] is [X s], and [levelStyle lv] is
    [levelStyle(lv).Renderer(l.re).String()].  [KeyStyles] and [ValueStyles]
    are the per-key override maps. *)
Record Styles : Type := {
  TimestampStyle : string -> string;
  levelStyle : Z -> string;
  CallerStyle : string -> string;
  PrefixStyle : string -> string;
  MessageStyle : string -> string;
  KeyStyle : string -> string;
  ValueStyle : string -> string;
  SeparatorStyle : string -> string;
  KeyStyles : string -> option (string -> string);
  ValueStyles : string -> option (string -> string)
}.

(** Declarations the sources use and do not contain: the reserved keys (the
    assembler calls them tsKey, lvlKey, callerKey, prefixKey and msgKey), the
    [Level] constants, the display forms of a [Level] and of a [time.Time],
    [time.Time.Format], and the JSON formatter. *)
Record Decls : Type := {
  TimestampKey : string;
  LevelKey : string;
  CallerKey : string;
  PrefixKey : string;
  MessageKey : string;
  DebugLevel : Z;
  InfoLevel : Z;
  WarnLevel : Z;
  ErrorLevel : Z;
  FatalLevel : Z;
  OffLevel : Z;
  noLevel : Z;
  LevelString : Z -> string;
  TimeString : Z -> string;
  TimeFormat : Z -> string -> string;
  jsonFormatter : list value -> option string
}.

(** The reserved keys are pairwise different constants. *)
Definition keysDistinct (d : Decls) : Prop :=
  NoDup [TimestampKey d; LevelKey d; CallerKey d; PrefixKey d; MessageKey d].

(** [Debug < Info < Warn < Error < Fatal], the off sentinel above them and
    the no-level marker not below off. *)
Definition levelsOrdered (d : Decls) : Prop :=
  DebugLevel d < InfoLevel d /\ InfoLevel d < WarnLevel d /\
  WarnLevel d < ErrorLevel d /\ ErrorLevel d < FatalLevel d /\
  FatalLevel d < OffLevel d /\ OffLevel d <= noLevel d.

(** Styling disabled, taken as: every transform is the identity and no key
    has an override.  The transforms stand for [Render] of the style
    variables, which the sources do not contain; a [Render] that rewrites
    the text it is given (a tab, for one) is not the identity on that text,
    so a statement under this assumption speaks of text that [Render] leaves
    as it is.  The statements about the header, the message and the pairs of
    an entry keep the transforms as they are instead. *)
Definition stylesDisabled (st : Styles) : Prop :=
  (forall s, TimestampStyle st s = s) /\ (forall s, CallerStyle st s = s) /\
  (forall s, PrefixStyle st s = s) /\ (forall s, MessageStyle st s = s) /\
  (forall s, KeyStyle st s = s) /\ (forall s, ValueStyle st s = s) /\
  (forall s, SeparatorStyle st s = s) /\
  (forall k, KeyStyles st k = None) /\ (forall k, ValueStyles st k = None).

(** ** The text renderer (text.go) *)

Section Renderer.

Variable inPrintRanges : Z -> bool.
Variable d : Decls.
Variable st : Styles.

(** [fmt.Sprint(v)]. *)
Definition Sprint (v : value) : string :=
  match v with
  | VNil => "<nil>"
  | VString s => s
  | VLevel l => LevelString d l
  | VTime t => TimeString d t
  | VOther s _ => s
  end.

(** [fmt.Sprintf("%+v", v)]. *)
Definition SprintPlusV (v : value) : string :=
  match v with
  | VOther _ s => s
  | _ => Sprint v
  end.

(** [keyvals[i] == K] for a string constant [K]. *)
Definition isKey (k : value) (K : string) : bool :=
  match k with
  | VString s => String.eqb s K
  | _ => false
  end.

(** A key that takes none of the five reserved cases of the switch. *)
Definition isCustom (k : value) : bool :=
  negb (isKey k (TimestampKey d) || isKey k (LevelKey d) || isKey k (CallerKey d)
        || isKey k (PrefixKey d) || isKey k (MessageKey d)).

Definition separator : string := "=".
Definition indentSeparator : string := "  │ ".

Definition writeSpace (first : bool) : string :=
  if first then EmptyString else " ".

(** The style [writeIndent] gives the last line: the override of the key,
    the generic value style otherwise. *)
Definition lastLineStyle (key : string) : string -> string :=
  match ValueStyles st key with
  | Some vs => vs
  | None => ValueStyle st
  end.

(** [writeIndent]: what it writes to [w]. *)
Equations? writeIndent (str indent : string) (newline : bool) (key : string)
  : string by wf (String.length str) lt :=
  writeIndent str indent newline key
    with Equations.Prop.Logic.inspect (IndexByte str LF) := {
    | exist _ None _ =>
        if String.eqb str EmptyString then EmptyString
        else indent ++ lastLineStyle key (escapeStringForOutput inPrintRanges str false)
               ++ (if newline then str1 LF else EmptyString)
    | exist _ (Some nl) e =>
        indent
        ++ ValueStyle st (escapeStringForOutput inPrintRanges (takeBytes nl str) false)
        ++ str1 LF
        ++ writeIndent (dropBytes (S nl) str) indent newline key }.
Proof.
  assert (H : forall (s : string) (n : nat),
             IndexByte s LF = Some n ->
             (String.length (dropBytes (S n) s) < String.length s)%nat).
  { induction s as [|a t IH]; simpl; intros n Hn; [discriminate|].
    destruct (Ascii.eqb a LF).
    - injection Hn as <-. simpl. lia.
    - destruct (IndexByte t LF) as [i|]; [|discriminate].
      injection Hn as <-. specialize (IH i eq_refl). lia. }
  apply (H _ _ e).
Qed.

(** One iteration of the loop of [textFormatter] over the pair
    [(keyvals[i], keyvals[i+1])]: what it appends to the buffer. *)
Definition textField (timeFormat : string) (firstKey moreKeys : bool)
    (k v : value) : string :=
  if isKey k (TimestampKey d) then
    match v with
    | VTime t => writeSpace firstKey ++ TimestampStyle st (TimeFormat d t timeFormat)
    | _ => EmptyString
    end
  else if isKey k (LevelKey d) then
    match v with
    | VLevel level => writeSpace firstKey ++ levelStyle st level
    | _ => EmptyString
    end
  else if isKey k (CallerKey d) then
    match v with
    | VString caller => writeSpace firstKey ++ CallerStyle st ("<" ++ caller ++ ">")
    | _ => EmptyString
    end
  else if isKey k (PrefixKey d) then
    match v with
    | VString prefix => writeSpace firstKey ++ PrefixStyle st (prefix ++ ":")
    | _ => EmptyString
    end
  else if isKey k (MessageKey d) then
    match v with
    | VNil => EmptyString
    | msg => writeSpace firstKey ++ MessageStyle st (Sprint msg)
    end
  else
    let sep := SeparatorStyle st separator in
    let indentSep := SeparatorStyle st indentSeparator in
    let key := Sprint k in
    let val := SprintPlusV v in
    let raw := String.eqb val EmptyString in
    let val := if raw then String DQ (str1 DQ) else val in
    if String.eqb key EmptyString then EmptyString
    else
      let actualKey := key in
      let valueStyle :=
        match ValueStyles st actualKey with Some vs => vs | None => ValueStyle st end in
      let key :=
        match KeyStyles st key with Some ks => ks key | None => KeyStyle st key end in
      if containsByte val LF then
        (String LF "  ") ++ key ++ (sep ++ str1 LF)
        ++ writeIndent val indentSep moreKeys actualKey
      else if negb raw && needsQuoting val then
        writeSpace firstKey ++ key ++ sep
        ++ valueStyle (str1 DQ ++ escapeStringForOutput inPrintRanges val true ++ str1 DQ)
      else
        writeSpace firstKey ++ key ++ sep ++ valueStyle val.

(** The loop of [textFormatter] from index [i] on, [kvs] being [keyvals[i:]]:
    the bytes appended, or [None] when [keyvals[i+1]] is out of range (a
    run-time panic). *)
Fixpoint textFields (timeFormat : string) (lenKeyvals i : Z) (kvs : list value)
  : option string :=
  match kvs with
  | [] => Some EmptyString
  | [_] => None
  | k :: v :: rest =>
      match textFields timeFormat lenKeyvals (i + 2) rest with
      | Some out =>
          Some (textField timeFormat (i =? 0) (i <? lenKeyvals - 2) k v ++ out)
      | None => None
      end
  end.

(** [textFormatter]: the content of the buffer when it returns. *)
Definition textFormatter (timeFormat : string) (keyvals : list value) : option string :=
  match textFields timeFormat (Z.of_nat (List.length keyvals)) 0 keyvals with
  | Some out => Some (out ++ str1 LF)
  | None => None
  end.

End Renderer.

(** ** The logger: caller resolution and entry assembly *)

(** The sink [l.w]: [io.Discard] or any other writer. *)
Inductive Writer : Type := Discard | Sink.

Inductive Formatter : Type := TextFormatter | JSONFormatter.

(** A stack frame as [runtime.CallersFrames] reports it. *)
Record Frame : Type := {
  Function : string;
  File : string;
  Line : Z
}.

(** The frame [frames.Next()] returns when nothing was captured. *)
Definition zeroFrame : Frame :=
  {| Function := EmptyString; File := EmptyString; Line := 0 |}.

(** The fields of the logger that the pipeline reads.  [helpers] holds the
    keys of the [sync.Map]; [timeFunc] is the time source. *)
Record logger : Type := {
  w : Writer;
  level : Z;
  prefix : string;
  timeFunc : unit -> Z;
  timeFormat : string;
  callerOffset : Z;
  formatter : Formatter;
  caller : bool;
  timestamp : bool;
  keyvals : list value;
  helpers : list string
}.

(** What a call of [log] does: it returns at one of the two early exits, or
    it assembles [kvs] and runs the formatter on it; [res] is then the buffer
    written to the sink, [None] when the formatter panics. *)
Inductive outcome : Type :=
| Skipped
| Formatted (kvs : list value) (res : option string).

Definition maxStackLen : nat := 50.

(** [l.helpers.Load(fn)]. *)
Definition isHelper (hs : list string) (fn : string) : bool :=
  existsb (String.eqb fn) hs.

(** The loop of [fillLoc] over the captured frames, most recent first:
    [frames.Next()] gives the head, and [more] is whether frames remain. *)
Fixpoint walkFrames (hs : list string) (frames : list Frame) : Frame :=
  match frames with
  | [] => zeroFrame
  | [frame] => frame
  | frame :: rest =>
      if negb (isHelper hs (Function frame)) then frame
      else walkFrames hs rest
  end.

(** [runtime.Callers(skip, pc)] on a stack whose frame 0 is that of
    [runtime.Callers] itself: at most [len(pc)] frames from frame [skip] on
    (a negative [skip] is read as 0). *)
Definition Callers (stack : list Frame) (skip : Z) (max : nat) : list Frame :=
  firstn max (skipn (Z.to_nat skip) stack).

(** [fillLoc], [stack] being the call stack at its call of
    [runtime.Callers]. *)
Definition fillLoc (l : logger) (stack : list Frame) (skip : Z) : string * Z * string :=
  let frames := Callers stack (skip + 2) maxStackLen in
  let frame := walkFrames (helpers l) frames in
  (File frame, Line frame, Function frame).

(** [location], [stack] being the call stack at its call of
    [runtime.Caller], frame 0 that of [location] itself. *)
Definition location (stack : list Frame) (skip : Z) : string * Z * string :=
  let frame := nth (Z.to_nat (skip + 1)) stack zeroFrame in
  (File frame, Line frame, Function frame).

(** [l.helpers.LoadOrStore(fn, struct{}{})]. *)
Definition LoadOrStore (hs : list string) (fn : string) : list string :=
  if isHelper hs fn then hs else fn :: hs.

Definition setHelpers (l : logger) (hs : list string) : logger :=
  {| w := w l; level := level l; prefix := prefix l; timeFunc := timeFunc l;
     timeFormat := timeFormat l; callerOffset := callerOffset l;
     formatter := formatter l; caller := caller l; timestamp := timestamp l;
     keyvals := keyvals l; helpers := hs |}.

(** [helper(skip)]: the logger afterwards. *)
Definition helper (l : logger) (stack : list Frame) (skip : Z) : logger :=
  let '(_, _, fn) := location stack (skip + 1) in
  setHelpers l (LoadOrStore (helpers l) fn).

(** [Helper()]. *)
Definition Helper (l : logger) (stack : list Frame) : logger := helper l stack 1.

(** [trimCallerPath]. *)
Definition trimCallerPath (path : string) : string :=
  match LastIndexByte path "/"%char with
  | None => path
  | Some idx =>
      match LastIndexByte (takeBytes idx path) "/"%char with
      | None => path
      | Some idx' => dropBytes (S idx') path
      end
  end.

(** The verb [%d]. *)
Definition itoa (n : Z) : string := NilZero.string_of_int (Z.to_int n).

(** [With]: the derived logger as [log] reads it when [With] returns, its
    bound fields being those of the parent followed by the new ones.  The
    slice these fields live in, and the array it may share with the parent
    and with other loggers derived from it, are in [Slices.With]. *)
Definition With (l : logger) (kvs : list value) : logger :=
  {| w := w l; level := level l; prefix := prefix l; timeFunc := timeFunc l;
     timeFormat := timeFormat l; callerOffset := callerOffset l;
     formatter := formatter l; caller := caller l; timestamp := timestamp l;
     keyvals := (keyvals l ++ kvs)%list; helpers := helpers l |}.

Section Assembler.

Variable inPrintRanges : Z -> bool.
Variable d : Decls.
Variable st : Styles.

(** The key/value sequence [kvs] that [log] has built when it reaches the
    formatter. *)
Definition assemble (l : logger) (stack : list Frame) (lvl : Z) (msg : value)
    (callKeyvals : list value) : list value :=
  let kvs : list value := [] in
  let kvs :=
    if timestamp l then (kvs ++ [VString (TimestampKey d); VTime (timeFunc l tt)])%list
    else kvs in
  let kvs :=
    if negb (lvl =? noLevel d) then (kvs ++ [VString (LevelKey d); VLevel lvl])%list
    else kvs in
  let kvs :=
    if caller l then
      let '(file, line, _) := fillLoc l stack (callerOffset l + 2) in
      let c := "<" ++ trimCallerPath file ++ ":" ++ itoa line ++ ">" in
      (kvs ++ [VString (CallerKey d); VString c])%list
    else kvs in
  let kvs :=
    if negb (String.eqb (prefix l) EmptyString)
    then (kvs ++ [VString (PrefixKey d); VString (prefix l)])%list
    else kvs in
  let kvs :=
    match msg with
    | VNil => kvs
    | _ => (kvs ++ [VString (MessageKey d); VString (Sprint d msg)])%list
    end in
  let kvs := (kvs ++ keyvals l)%list in
  let kvs := (kvs ++ callKeyvals)%list in
  kvs.

(** The slice [keyvals] after the parity check that follows the appends:
    the padded slice, which no later statement of [log] reads. *)
Definition paddedKeyvals (callKeyvals : list value) : list value :=
  if negb (Nat.eqb (Nat.modulo (List.length callKeyvals) 2) 0)
  then (callKeyvals ++ [VString "MISSING_VALUE"])%list
  else callKeyvals.

(** [log]. *)
Definition log (l : logger) (stack : list Frame) (lvl : Z) (msg : value)
    (callKeyvals : list value) : outcome :=
  match w l with
  | Discard => Skipped
  | Sink =>
      if level l >? lvl then Skipped
      else
        let kvs := assemble l stack lvl msg callKeyvals in
        let _ := paddedKeyvals callKeyvals in
        match formatter l with
        | JSONFormatter => Formatted kvs (jsonFormatter d kvs)
        | TextFormatter =>
            Formatted kvs (textFormatter inPrintRanges d st (timeFormat l) kvs)
        end
  end.

Definition Info l stack msg kvs := log l stack (InfoLevel d) msg kvs.
Definition Error l stack msg kvs := log l stack (ErrorLevel d) msg kvs.
Definition Print l stack msg kvs := log l stack (noLevel d) msg kvs.

End Assembler.

(** [New(WithOutput(&buf), WithTimeFunction(now))]: the logger [New] builds
    for a writer other than [io.Discard].  [layout] stands for
    [DefaultTimeFormat], which the sources do not contain. *)
Definition New (d : Decls) (now : unit -> Z) (layout : string) : logger :=
  {| w := Sink; level := InfoLevel d; prefix := EmptyString; timeFunc := now;
     timeFormat := layout; callerOffset := 0; formatter := TextFormatter;
     caller := false; timestamp := false; keyvals := []; helpers := [] |}.

(** ** The setters of the logger (logger.go)

    Each setter assigns one field under the lock ([DisableTimestamp] assigns
    before it takes the lock); in a sequential run the logger afterwards is
    the old one with that field replaced.  The getters read a field. *)

Definition EnableTimestamp (l : logger) : logger :=
  {| w := w l; level := level l; prefix := prefix l; timeFunc := timeFunc l;
     timeFormat := timeFormat l; callerOffset := callerOffset l;
     formatter := formatter l; caller := caller l; timestamp := true;
     keyvals := keyvals l; helpers := helpers l |}.

Definition DisableTimestamp (l : logger) : logger :=
  {| w := w l; level := level l; prefix := prefix l; timeFunc := timeFunc l;
     timeFormat := timeFormat l; callerOffset := callerOffset l;
     formatter := formatter l; caller := caller l; timestamp := false;
     keyvals := keyvals l; helpers := helpers l |}.

Definition DisableCaller (l : logger) : logger :=
  {| w := w l; level := level l; prefix := prefix l; timeFunc := timeFunc l;
     timeFormat := timeFormat l; callerOffset := callerOffset l;
     formatter := formatter l; caller := false; timestamp := timestamp l;
     keyvals := keyvals l; helpers := helpers l |}.

Definition GetLevel (l : logger) : Z := level l.

Definition SetLevel (l : logger) (lv : Z) : logger :=
  {| w := w l; level := lv; prefix := prefix l; timeFunc := timeFunc l;
     timeFormat := timeFormat l; callerOffset := callerOffset l;
     formatter := formatter l; caller := caller l; timestamp := timestamp l;
     keyvals := keyvals l; helpers := helpers l |}.

Definition GetPrefix (l : logger) : string := prefix l.

Definition SetPrefix (l : logger) (p : string) : logger :=
  {| w := w l; level := level l; prefix := p; timeFunc := timeFunc l;
     timeFormat := timeFormat l; callerOffset := callerOffset l;
     formatter := formatter l; caller := caller l; timestamp := timestamp l;
     keyvals := keyvals l; helpers := helpers l |}.

Definition SetTimeFormat (l : logger) (format : string) : logger :=
  {| w := w l; level := level l; prefix := prefix l; timeFunc := timeFunc l;
     timeFormat := format; callerOffset := callerOffset l;
     formatter := formatter l; caller := caller l; timestamp := timestamp l;
     keyvals := keyvals l; helpers := helpers l |}.

Definition SetTimeFunction (l : logger) (f : unit -> Z) : logger :=
  {| w := w l; level := level l; prefix := prefix l; timeFunc := f;
     timeFormat := timeFormat l; callerOffset := callerOffset l;
     formatter := formatter l; caller := caller l; timestamp := timestamp l;
     keyvals := keyvals l; helpers := helpers l |}.

Definition SetOutput (l : logger) (out : Writer) : logger :=
  {| w := out; level := level l; prefix := prefix l; timeFunc := timeFunc l;
     timeFormat := timeFormat l; callerOffset := callerOffset l;
     formatter := formatter l; caller := caller l; timestamp := timestamp l;
     keyvals := keyvals l; helpers := helpers l |}.

Definition SetFormatter (l : logger) (f : Formatter) : logger :=
  {| w := w l; level := level l; prefix := prefix l; timeFunc := timeFunc l;
     timeFormat := timeFormat l; callerOffset := callerOffset l;
     formatter := f; caller := caller l; timestamp := timestamp l;
     keyvals := keyvals l; helpers := helpers l |}.

(** How a call that does not simply return ends: the process exits with a
    status ([os.Exit]), or a run-time panic unwinds the stack. *)
Inductive ending : Type :=
| Exit (code : Z)
| Panic.

Section Termination.

Variable inPrintRanges : Z -> bool.
Variable d : Decls.
Variable st : Styles.

(** [Fatal]: the entry is logged at the fatal level, then [os.Exit(1)]; the
    exit is not reached when the formatter panics inside [log]. *)
Definition Fatal (l : logger) (stack : list Frame) (msg : value)
    (kvs : list value) : outcome * ending :=
  let o := log inPrintRanges d st l stack (FatalLevel d) msg kvs in
  match o with
  | Formatted _ None => (o, Panic)
  | _ => (o, Exit 1)
  end.

End Termination.

(** ** The writers of logger.go

    logger.go carries its own copy of the escaping engine and of
    [writeIndent]: they write to an [io.Writer] and apply no style.
    [needsEscaping], [isNormal], [needsQuoting] and the loop over the runes
    are the same text as in text.go, and are not repeated. *)

Module LoggerGo.

Section Writers.

Variable inPrintRanges : Z -> bool.

(** [writeEscapedForOutput]: what it writes to [w]. *)
Definition writeEscapedForOutput (str : string) (escapeQuotes : bool) : string :=
  if negb (needsEscaping inPrintRanges str) then str
  else joinAll (map (escapeRune inPrintRanges escapeQuotes) (runes str)).

(** [writeIndent]: what it writes to [w]. *)
Equations? writeIndent (str indent : string) (newline : bool)
  : string by wf (String.length str) lt :=
  writeIndent str indent newline
    with Equations.Prop.Logic.inspect (IndexByte str LF) := {
    | exist _ None _ =>
        if String.eqb str EmptyString then EmptyString
        else indent ++ writeEscapedForOutput str false
               ++ (if newline then str1 LF else EmptyString)
    | exist _ (Some nl) e =>
        indent
        ++ writeEscapedForOutput (takeBytes nl str) false
        ++ str1 LF
        ++ writeIndent (dropBytes (S nl) str) indent newline }.
Proof.
  assert (H : forall (s : string) (n : nat),
             IndexByte s LF = Some n ->
             (String.length (dropBytes (S n) s) < String.length s)%nat).
  { induction s as [|a t IH]; simpl; intros n Hn; [discriminate|].
    destruct (Ascii.eqb a LF).
    - injection Hn as <-. simpl. lia.
    - destruct (IndexByte t LF) as [i|]; [|discriminate].
      injection Hn as <-. specialize (IH i eq_refl). lia. }
  apply (H _ _ e).
Qed.

End Writers.

End LoggerGo.

(** ** Slices, and [With] on them

    [With] appends to the slice of bound fields of the parent.  A slice is a
    window on an array, and [append] writes behind the window, in the same
    array, when the capacity allows: the array is then shared by the old
    slice and the new one.  Here the bound fields live in a heap of arrays;
    the capacity [append] gives a new array is the choice of the run-time
    system, a parameter. *)

Module Slices.

(** A slice: the address of its array, its length and its capacity. *)
Record slice : Type := {
  array : nat;
  len : nat;
  cap : nat
}.

(** The arrays, by address; an array is as long as the capacity of the
    slices on it. *)
Definition heap : Type := list (list value).

(** The elements of a slice. *)
Definition elems (h : heap) (s : slice) : list value :=
  firstn (len s) (nth (array s) h []).

(** The heap with the array at address [a] replaced. *)
Definition store (h : heap) (a : nat) (arr : list value) : heap :=
  (firstn a h ++ arr :: skipn (S a) h)%list.

(** A slice lies within an array of the heap. *)
Definition inHeap (h : heap) (s : slice) : Prop :=
  (array s < List.length h)%nat /\ (len s <= cap s)%nat
  /\ List.length (nth (array s) h []) = cap s.

Section Append.

(** The capacity of the array [append] allocates, from the old capacity and
    the length needed. *)
Variable growth : nat -> nat -> nat.

(** [append(s, xs...)]: behind the elements of [s] in its array when the
    capacity suffices, otherwise in a new array that gets a copy of the
    elements. *)
Definition append (h : heap) (s : slice) (xs : list value) : heap * slice :=
  let n := (len s + List.length xs)%nat in
  if (n <=? cap s)%nat then
    let arr := nth (array s) h [] in
    (store h (array s) (firstn (len s) arr ++ xs ++ skipn n arr)%list,
     {| array := array s; len := n; cap := cap s |})
  else
    let c := growth (cap s) n in
    ((h ++ [(elems h s ++ xs ++ repeat VNil (c - n))%list])%list,
     {| array := List.length h; len := n; cap := c |}).

(** A logger whose bound fields are a slice: [fields] holds the other
    fields of the struct, [bound] is the field [keyvals]. *)
Record boundLogger : Type := {
  fields : logger;
  bound : slice
}.

(** The logger as [log] reads it: the bound fields are the elements of the
    slice. *)
Definition view (h : heap) (l : boundLogger) : logger :=
  {| w := w (fields l); level := level (fields l); prefix := prefix (fields l);
     timeFunc := timeFunc (fields l); timeFormat := timeFormat (fields l);
     callerOffset := callerOffset (fields l); formatter := formatter (fields l);
     caller := caller (fields l); timestamp := timestamp (fields l);
     keyvals := elems h (bound l); helpers := helpers (fields l) |}.

(** [With]: the heap afterwards and the derived logger, a copy of the struct
    with [append(l.keyvals, keyvals...)] as bound fields. *)
Definition With (h : heap) (l : boundLogger) (kvs : list value)
  : heap * boundLogger :=
  let '(h', s') := append h (bound l) kvs in
  (h', {| fields := fields l; bound := s' |}).

End Append.

End Slices.

(** ** An instance of the absent declarations

    The model is evaluated on one choice of reserved keys, level constants,
    display forms and styles. *)

(** Tables in which no rune above Latin-1 is printable. *)
Definition exampleTables : Z -> bool := fun _ => false.

Definition exampleLevelName (l : Z) : string :=
  if l =? 0 then "debug" else if l =? 1 then "info" else if l =? 2 then "warn"
  else if l =? 3 then "error" else if l =? 4 then "fatal" else EmptyString.

(** Modelled from the spec: the reserved keys and the [Level] constants,
    whose declarations the sources do not contain.  The spec fixes that the
    five keys are different sentinels and that the levels are ordered
    Debug < Info < Warn < Error < Fatal, with the off sentinel above them and
    a no-level marker that is never filtered; the values are one choice. *)
Definition exampleDecls : Decls :=
  {| TimestampKey := "ts"; LevelKey := "lvl"; CallerKey := "caller";
     PrefixKey := "prefix"; MessageKey := "msg";
     DebugLevel := 0; InfoLevel := 1; WarnLevel := 2; ErrorLevel := 3;
     FatalLevel := 4; OffLevel := 5; noLevel := 6;
     LevelString := exampleLevelName;
     TimeString := itoa;
     TimeFormat := fun t _ => itoa t;
     jsonFormatter := fun _ => Some EmptyString |}.

(** Modelled from the spec: styling disabled, that is every transform the
    identity (the style variables are not in the sources); a level is
    rendered by its upper-case name, as in the lines log_test.go expects. *)
Definition plainStyles : Styles :=
  {| TimestampStyle := fun s => s;
     levelStyle := fun l =>
       if l =? 0 then "DEBUG" else if l =? 1 then "INFO" else if l =? 2 then "WARN"
       else if l =? 3 then "ERROR" else if l =? 4 then "FATAL" else EmptyString;
     CallerStyle := fun s => s; PrefixStyle := fun s => s;
     MessageStyle := fun s => s; KeyStyle := fun s => s; ValueStyle := fun s => s;
     SeparatorStyle := fun s => s;
     KeyStyles := fun _ => None; ValueStyles := fun _ => None |}.

Definition exampleLogger : logger := New exampleDecls (fun _ => 0) EmptyString.

(** The call stack when a function [main.main] at main.go:12 calls a public
    method of the logger: the frames of [runtime.Callers], [fillLoc], [log]
    and the method, then the caller's. *)
Definition exampleStack : list Frame :=
  [ {| Function := "runtime.Callers"; File := "/go/src/runtime/extern.go"; Line := 331 |};
    {| Function := "log.(*logger).fillLoc"; File := "/src/log/logger.go"; Line := 274 |};
    {| Function := "log.(*logger).log"; File := "/src/log/logger.go"; Line := 222 |};
    {| Function := "log.(*logger).Info"; File := "/src/log/logger.go"; Line := 436 |};
    {| Function := "main.main"; File := "/src/app/main.go"; Line := 12 |};
    {| Function := "runtime.main"; File := "/go/src/runtime/proc.go"; Line := 271 |} ].

(** [EnableCaller]. *)
Definition EnableCaller (l : logger) : logger :=
  {| w := w l; level := level l; prefix := prefix l; timeFunc := timeFunc l;
     timeFormat := timeFormat l; callerOffset := callerOffset l;
     formatter := formatter l; caller := true; timestamp := timestamp l;
     keyvals := keyvals l; helpers := helpers l |}.

(** The stacks of TestLogHelper (log_test.go): the closure at lines 101-104
    calls [Helper] at line 102 and [Info] at line 103, and the test calls the
    closure at line 106. *)
Definition testFrames : list Frame :=
  [ {| Function := "log.TestLogHelper"; File := "/src/log/log_test.go"; Line := 106 |};
    {| Function := "testing.tRunner"; File := "/go/src/testing/testing.go"; Line := 1689 |} ].

Definition helperCallStack : list Frame :=
  [ {| Function := "log.location"; File := "/src/log/logger.go"; Line := 288 |};
    {| Function := "log.(*logger).helper"; File := "/src/log/logger.go"; Line := 263 |};
    {| Function := "log.(*logger).Helper"; File := "/src/log/logger.go"; Line := 259 |};
    {| Function := "log.TestLogHelper.func1"; File := "/src/log/log_test.go"; Line := 102 |} ]
  ++ testFrames.

Definition infoCallStack : list Frame :=
  [ {| Function := "runtime.Callers"; File := "/go/src/runtime/extern.go"; Line := 331 |};
    {| Function := "log.(*logger).fillLoc"; File := "/src/log/logger.go"; Line := 274 |};
    {| Function := "log.(*logger).log"; File := "/src/log/logger.go"; Line := 222 |};
    {| Function := "log.(*logger).Info"; File := "/src/log/logger.go"; Line := 436 |};
    {| Function := "log.TestLogHelper.func1"; File := "/src/log/log_test.go"; Line := 103 |} ]
  ++ testFrames.

(** The logger of TestLogHelper after the closure has called [Helper]. *)
Definition testLogger : logger :=
  Helper (EnableCaller exampleLogger) helperCallStack.

(** A helper that calls itself: fifty frames of the helper-marked function
    [app.logEvent] between the logger's own frames and [main.main]. *)
Definition wrapperFrame : Frame :=
  {| Function := "app.logEvent"; File := "/src/app/events.go"; Line := 20 |}.

Definition deepStack : list Frame :=
  firstn 4 exampleStack ++ repeat wrapperFrame 50 ++ skipn 4 exampleStack.

Definition deepLogger : logger :=
  setHelpers (EnableCaller exampleLogger) ["app.logEvent"].

(** The capacity the Go run-time system gives a small slice that has to
    grow: the length needed, or twice the old capacity when that is more. *)
Definition doubling (old needed : nat) : nat := Nat.max needed (2 * old).

(** The logger [New] builds, its bound fields the nil slice. *)
Definition rootLogger : Slices.boundLogger :=
  {| Slices.fields := exampleLogger;
     Slices.bound := {| Slices.array := 0; Slices.len := 0; Slices.cap := 0 |} |}.

(** The heap and the logger after three derivations in a row, each binding
    one pair: the slice of the last one has six elements and capacity
    eight. *)
Definition thirdDerivation : Slices.heap * Slices.boundLogger :=
  let '(h1, l1) :=
    Slices.With doubling [[]] rootLogger [VString "service"; VString "api"] in
  let '(h2, l2) := Slices.With doubling h1 l1 [VString "region"; VString "eu"] in
  Slices.With doubling h2 l2 [VString "zone"; VString "a"].

(** ** Reading escape sequences back *)

Module Unquote.

(** The reader is a small automaton over the bytes: [Normal] between escape
    sequences, [Escape] after a backslash, [Skip n] over the [n] remaining
    bytes of a rune already read, [Hex] and [Oct] inside a numeric escape
    with the digits still to come and the value so far. *)
Inductive state : Type :=
| Normal
| Escape
| Skip (n : nat)
| Hex (multibyte : bool) (n : nat) (acc : Z)
| Oct (n : nat) (acc : Z).

(** [unhex]. *)
Definition unhex (c : ascii) : option Z :=
  let b := byteZ c in
  if (48 <=? b) && (b <=? 57) then Some (b - 48)
  else if (97 <=? b) && (b <=? 102) then Some (b - 97 + 10)
  else if (65 <=? b) && (b <=? 70) then Some (b - 65 + 10)
  else None.

Definition emit (piece : string) (rest : option string) : option string :=
  match rest with
  | Some out => Some (piece ++ out)
  | None => None
  end.

(** Modelled from the spec: the standard un-escaping that reads the output of
    the escaping engine back.  The sources contain no such function; this is
    [strconv.Unquote] without the surrounding quotes, that is
    [strconv.UnquoteChar] applied until the input is used up, with the
    results appended as bytes (hexadecimal and octal escapes) or as UTF-8.
    [quoted] says whether the text stands between double quotes: then an
    escaped quote is read and a raw one is refused; otherwise it is the other
    way round.  A raw line feed is refused.  [None] is a syntax error. *)
Fixpoint unescapeFrom (quoted : bool) (st : state) (s : string) : option string :=
  match s with
  | EmptyString =>
      match st with
      | Normal | Skip O => Some EmptyString
      | _ => None
      end
  | String c t =>
      match st with
      | Skip O | Normal =>
          if Ascii.eqb c BS then unescapeFrom quoted Escape t
          else if Ascii.eqb c LF then None
          else if quoted && Ascii.eqb c DQ then None
          else if byteZ c <? 0x80 then emit (str1 c) (unescapeFrom quoted Normal t)
          else
            emit (encodeRune (fst (decoderune c t)))
                 (unescapeFrom quoted (Skip (snd (decoderune c t) - 1)) t)
      | Skip (S n) => unescapeFrom quoted (Skip n) t
      | Escape =>
          let b := byteZ c in
          if b =? 97 then emit (str1 (zbyte 7)) (unescapeFrom quoted Normal t)
          else if b =? 98 then emit (str1 (zbyte 8)) (unescapeFrom quoted Normal t)
          else if b =? 102 then emit (str1 (zbyte 12)) (unescapeFrom quoted Normal t)
          else if b =? 110 then emit (str1 (zbyte 10)) (unescapeFrom quoted Normal t)
          else if b =? 114 then emit (str1 (zbyte 13)) (unescapeFrom quoted Normal t)
          else if b =? 116 then emit (str1 (zbyte 9)) (unescapeFrom quoted Normal t)
          else if b =? 118 then emit (str1 (zbyte 11)) (unescapeFrom quoted Normal t)
          else if b =? 120 then unescapeFrom quoted (Hex false 2 0) t
          else if b =? 117 then unescapeFrom quoted (Hex true 4 0) t
          else if b =? 85 then unescapeFrom quoted (Hex true 8 0) t
          else if (48 <=? b) && (b <=? 55) then unescapeFrom quoted (Oct 2 (b - 48)) t
          else if b =? 92 then emit (str1 BS) (unescapeFrom quoted Normal t)
          else if b =? 34 then
            if quoted then emit (str1 DQ) (unescapeFrom quoted Normal t) else None
          else None
      | Hex multibyte n acc =>
          match unhex c with
          | None => None
          | Some x =>
              let v := Z.lor (Z.shiftl acc 4) x in
              match n with
              | O => None
              | S O =>
                  if multibyte then
                    if ValidRune v
                    then emit (encodeRune v) (unescapeFrom quoted Normal t)
                    else None
                  else emit (str1 (zbyte v)) (unescapeFrom quoted Normal t)
              | S m => unescapeFrom quoted (Hex multibyte m v) t
              end
          end
      | Oct n acc =>
          let x := byteZ c - 48 in
          if (x <? 0) || (7 <? x) then None
          else
            let v := Z.lor (Z.shiftl acc 3) x in
            match n with
            | O => None
            | S O =>
                if 255 <? v then None
                else emit (str1 (zbyte v)) (unescapeFrom quoted Normal t)
            | S m => unescapeFrom quoted (Oct m v) t
            end
      end
  end.

Definition unescape (quoted : bool) (s : string) : option string :=
  unescapeFrom quoted Normal s.

End Unquote.
Import Unquote.

(** [unicode.IsControl]: the control characters, U+0000..U+001F and
    U+007F..U+009F. *)
Definition IsControl (r : Z) : bool :=
  ((0 <=? r) && (r <? 0x20)) || ((0x7F <=? r) && (r <? 0xA0)).

(** [utf8.ValidString]: decoding and encoding again gives the same bytes. *)
Definition ValidString (s : string) : bool :=
  String.eqb (joinAll (map encodeRune (runes s))) s.

(** ** Notions the statements use *)

(** Every byte is a printable ASCII character other than the quote. *)
Fixpoint printableASCII (s : string) : bool :=
  match s with
  | EmptyString => true
  | String c t =>
      (0x20 <=? byteZ c) && (byteZ c <=? 0x7E) && negb (byteZ c =? 34)
      && printableASCII t
  end.

(** Every byte is an ASCII character that is not a control character. *)
Fixpoint plainASCII (s : string) : bool :=
  match s with
  | EmptyString => true
  | String c t => (0x20 <=? byteZ c) && (byteZ c <=? 0x7E) && plainASCII t
  end.

(** A rune of [s] is the backslash. *)
Definition hasBackslash (s : string) : bool := existsb (Z.eqb 92) (runes s).

(** The keys of a key/value sequence: the elements at even positions. *)
Fixpoint keysOf (kvs : list value) : list value :=
  match kvs with
  | k :: _ :: rest => k :: keysOf rest
  | _ => []
  end.

(** The elements of [xs] whose flag is set, in order. *)
Fixpoint select {A : Type} (flags : list bool) (xs : list A) : list A :=
  match flags, xs with
  | b :: flags', x :: xs' => if b then x :: select flags' xs' else select flags' xs'
  | _, _ => []
  end.

Definition isNil (v : value) : bool :=
  match v with VNil => true | _ => false end.

(** The segments of [s] between line feeds, in order: [s] is their
    concatenation with one line feed between neighbours. *)
Fixpoint segments (s : string) : list string :=
  match s with
  | EmptyString => [EmptyString]
  | String c t =>
      if Ascii.eqb c LF then EmptyString :: segments t
      else match segments t with
           | seg :: rest => String c seg :: rest
           | [] => [str1 c]
           end
  end.

(** The number of occurrences of the byte [c] in [s]. *)
Fixpoint countByte (c : ascii) (s : string) : nat :=
  match s with
  | EmptyString => O
  | String a t => ((if Ascii.eqb a c then 1 else 0) + countByte c t)%nat
  end.

(** Every byte of [s] is one of '-'..'~'. *)
Fixpoint normalBytes (s : string) : bool :=
  match s with
  | EmptyString => true
  | String c t => (45 <=? byteZ c) && (byteZ c <=? 126) && normalBytes t
  end.

(** The key/value arguments of a call that passes pairs of strings. *)
Definition pairValues (pairs : list (string * string)) : list value :=
  flat_map (fun kv => [VString (fst kv); VString (snd kv)]) pairs.

(** Nothing the renderer may write for [v] holds a line feed: neither its
    display forms nor, for an instant or a level, its formatted form. *)
Definition singleLine (d : Decls) (st : Styles) (tf : string) (v : value) : bool :=
  negb (containsByte (Sprint d v) LF) && negb (containsByte (SprintPlusV d v) LF)
  && match v with
     | VTime t => negb (containsByte (TimeFormat d t tf) LF)
     | VLevel lv => negb (containsByte (levelStyle st lv) LF)
     | _ => true
     end.

Section Statements.

Variable inPrintRanges : Z -> bool.
Variable d : Decls.
Variable st : Styles.

(** The fields of the pairs of [kvs], concatenated in order; [kvs] stands at
    index [i] of a sequence of length [len]. *)
Fixpoint fieldsOf (tf : string) (len i : Z) (kvs : list value) : string :=
  match kvs with
  | k :: v :: rest =>
      textField inPrintRanges d st tf (i =? 0) (i <? len - 2) k v
      ++ fieldsOf tf len (i + 2) rest
  | _ => EmptyString
  end.

(** The reserved pairs [log] puts in front, in the order it appends them. *)
Definition reservedFields (l : logger) (stack : list Frame) (lvl : Z) (msg : value)
  : list value :=
  ((if timestamp l then [VString (TimestampKey d); VTime (timeFunc l tt)] else [])
   ++ (if negb (lvl =? noLevel d) then [VString (LevelKey d); VLevel lvl] else [])
   ++ (if caller l then
         [VString (CallerKey d);
          VString ("<" ++ trimCallerPath (fst (fst (fillLoc l stack (callerOffset l + 2))))
                   ++ ":" ++ itoa (snd (fst (fillLoc l stack (callerOffset l + 2)))) ++ ">")]
       else [])
   ++ (if negb (String.eqb (prefix l) EmptyString)
       then [VString (PrefixKey d); VString (prefix l)] else [])
   ++ (if isNil msg then [] else [VString (MessageKey d); VString (Sprint d msg)]))%list.

(** The block the lines of a value make: each segment but the last gets the
    indent marker in front and a line feed behind; the last one gets the
    marker and, when [newline] is set, a line feed, and is left out when it
    is empty. *)
Fixpoint indentLines (indent : string) (newline : bool) (key : string)
    (segs : list string) : string :=
  match segs with
  | [] => EmptyString
  | [last] =>
      if String.eqb last EmptyString then EmptyString
      else indent
           ++ lastLineStyle st key (escapeStringForOutput inPrintRanges last false)
           ++ (if newline then str1 LF else EmptyString)
  | seg :: rest =>
      indent ++ ValueStyle st (escapeStringForOutput inPrintRanges seg false)
      ++ str1 LF ++ indentLines indent newline key rest
  end.

(** The key as it is written: through its override, or the generic key style. *)
Definition styledKey (key : string) : string :=
  match KeyStyles st key with
  | Some ks => ks key
  | None => KeyStyle st key
  end.

End Statements.

(** * Properties *)

(** ** Strings *)

Lemma append_assoc (a b c : string) : (a ++ b) ++ c = a ++ (b ++ c).
Proof.
  induction a as [|x a IH]; simpl; [reflexivity|]. now rewrite IH.
Qed.

Lemma joinAll_app (l1 l2 : list string) :
  joinAll (l1 ++ l2) = joinAll l1 ++ joinAll l2.
Proof.
  induction l1 as [|x l1 IH]; simpl; [reflexivity|].
  now rewrite IH, append_assoc.
Qed.

Lemma byteZ_range (c : ascii) : 0 <= byteZ c < 256.
Proof.
  unfold byteZ. pose proof (N_ascii_bounded c). lia.
Qed.

Lemma byteZ_zbyte (z : Z) : 0 <= z < 256 -> byteZ (zbyte z) = z.
Proof.
  intros H. unfold byteZ, zbyte.
  rewrite Z.mod_small by lia.
  rewrite N_ascii_embedding by lia. lia.
Qed.

Lemma zbyte_byteZ (c : ascii) : zbyte (byteZ c) = c.
Proof.
  unfold byteZ, zbyte. pose proof (N_ascii_bounded c).
  rewrite Z.mod_small by lia.
  rewrite N2Z.id. apply ascii_N_embedding.
Qed.

Lemma byteZ_inj (a b : ascii) : byteZ a = byteZ b -> a = b.
Proof.
  intros H. rewrite <- (zbyte_byteZ a), <- (zbyte_byteZ b). now rewrite H.
Qed.

(** ** Decoding *)

Lemma runes_ascii (c : ascii) (t : string) :
  byteZ c < 0x80 -> runes (String c t) = byteZ c :: runes t.
Proof.
  intros H. simp runes. unfold decoderune.
  destruct (Z.ltb_spec (byteZ c) 0x80) as [_|Hge]; [|lia].
  reflexivity.
Qed.

(** ** Bit operations as arithmetic, and UTF-8 round trips *)

Lemma land_pow2_disjoint (a b n : Z) :
  0 <= n -> 0 <= b < 2 ^ n -> a mod 2 ^ n = 0 -> Z.land a b = 0.
Proof.
  intros Hn Hb Ha. apply Z.bits_inj'. intros m Hm.
  rewrite Z.land_spec, Z.bits_0.
  destruct (Z.lt_ge_cases m n) as [Hlt|Hge].
  - rewrite <- (Z.mod_pow2_bits_low a n m Hlt), Ha, Z.bits_0. reflexivity.
  - rewrite <- (Z.mod_small b (2 ^ n)) by lia.
    rewrite Z.mod_pow2_bits_high by lia. apply andb_false_r.
Qed.

Lemma lor_add (a b n : Z) :
  0 <= n -> 0 <= b < 2 ^ n -> a mod 2 ^ n = 0 -> Z.lor a b = a + b.
Proof.
  intros Hn Hb Ha. pose proof (Z.add_lor_land a b) as H.
  rewrite (land_pow2_disjoint a b n Hn Hb Ha) in H. lia.
Qed.

Lemma land_mask (a n : Z) : 0 <= n -> Z.land a (2 ^ n - 1) = a mod 2 ^ n.
Proof.
  intros Hn. rewrite <- Z.land_ones by assumption. f_equal.
  rewrite Z.ones_equiv. lia.
Qed.

Ltac arith := Z.to_euclidean_division_equations; lia.

Lemma shr6 r : Z.shiftr r 6 = r / 64.
Proof. now rewrite Z.shiftr_div_pow2 by lia. Qed.
Lemma shr12 r : Z.shiftr r 12 = r / 4096.
Proof. now rewrite Z.shiftr_div_pow2 by lia. Qed.
Lemma shr18 r : Z.shiftr r 18 = r / 262144.
Proof. now rewrite Z.shiftr_div_pow2 by lia. Qed.
Lemma land3F x : Z.land x 0x3F = x mod 64.
Proof. change 0x3F with (2 ^ 6 - 1). now rewrite land_mask by lia. Qed.
Lemma land1F x : Z.land x 0x1F = x mod 32.
Proof. change 0x1F with (2 ^ 5 - 1). now rewrite land_mask by lia. Qed.
Lemma land0F x : Z.land x 0x0F = x mod 16.
Proof. change 0x0F with (2 ^ 4 - 1). now rewrite land_mask by lia. Qed.
Lemma land07 x : Z.land x 0x07 = x mod 8.
Proof. change 0x07 with (2 ^ 3 - 1). now rewrite land_mask by lia. Qed.

Lemma contByte x : Z.lor 0x80 (Z.land x 0x3F) = 0x80 + x mod 64.
Proof.
  rewrite land3F. apply (lor_add _ _ 6); [lia| change (2^6) with 64; arith | reflexivity].
Qed.

Lemma encodeRune_1 r : 0 <= r <= 0x7F -> encodeRune r = str1 (zbyte r).
Proof.
  intros H. unfold encodeRune.
  replace ((0 <=? r) && (r <=? 127)) with true by (symmetry; lia). reflexivity.
Qed.

Lemma encodeRune_2 r : 0x80 <= r <= 0x7FF ->
  encodeRune r = String (zbyte (0xC0 + r / 64)) (str1 (zbyte (0x80 + r mod 64))).
Proof.
  intros H. unfold encodeRune.
  replace ((0 <=? r) && (r <=? 127)) with false by (symmetry; lia).
  replace ((0 <=? r) && (r <=? 2047)) with true by (symmetry; lia).
  rewrite contByte, shr6. do 2 f_equal.
  apply (lor_add _ _ 5); [lia| change (2^5) with 32; arith | reflexivity].
Qed.

Lemma encodeRune_3 r : 0x800 <= r <= 0xFFFF -> ValidRune r = true ->
  encodeRune r =
  String (zbyte (0xE0 + r / 4096))
    (String (zbyte (0x80 + (r / 64) mod 64)) (str1 (zbyte (0x80 + r mod 64)))).
Proof.
  intros H Hv. unfold encodeRune.
  replace ((0 <=? r) && (r <=? 127)) with false by (symmetry; lia).
  replace ((0 <=? r) && (r <=? 2047)) with false by (symmetry; lia).
  rewrite Hv. cbn [negb].
  replace (r <=? 65535) with true by (symmetry; lia).
  rewrite !contByte, shr6, shr12. do 2 f_equal.
  apply (lor_add _ _ 4); [lia| change (2^4) with 16; arith | reflexivity].
Qed.

Lemma encodeRune_4 r : 0x10000 <= r <= 0x10FFFF ->
  encodeRune r =
  String (zbyte (0xF0 + r / 262144))
    (String (zbyte (0x80 + (r / 4096) mod 64))
       (String (zbyte (0x80 + (r / 64) mod 64)) (str1 (zbyte (0x80 + r mod 64))))).
Proof.
  intros H. unfold encodeRune.
  replace ((0 <=? r) && (r <=? 127)) with false by (symmetry; lia).
  replace ((0 <=? r) && (r <=? 2047)) with false by (symmetry; lia).
  replace (ValidRune r) with true
    by (symmetry; unfold ValidRune, surrogateMin, surrogateMax, MaxRune; lia).
  cbn [negb].
  replace (r <=? 65535) with false by (symmetry; lia).
  rewrite !contByte, shr6, shr12, shr18. do 2 f_equal.
  apply (lor_add _ _ 3); [lia| change (2^3) with 8; arith | reflexivity].
Qed.

Lemma dec2_arith b0 b1 :
  Z.lor (Z.shiftl (Z.land b0 0x1F) 6) (Z.land b1 0x3F) = (b0 mod 32) * 64 + b1 mod 64.
Proof.
  rewrite land1F, land3F, Z.shiftl_mul_pow2 by lia. change (2 ^ 6) with 64.
  apply (lor_add _ _ 6); [lia| change (2^6) with 64; arith | change (2^6) with 64; arith].
Qed.

Lemma dec3_arith b0 b1 b2 :
  Z.lor (Z.lor (Z.shiftl (Z.land b0 0x0F) 12) (Z.shiftl (Z.land b1 0x3F) 6))
        (Z.land b2 0x3F)
  = (b0 mod 16) * 4096 + (b1 mod 64) * 64 + b2 mod 64.
Proof.
  rewrite land0F, !land3F, !Z.shiftl_mul_pow2 by lia.
  change (2 ^ 6) with 64. change (2 ^ 12) with 4096.
  rewrite (lor_add (b0 mod 16 * 4096) _ 12);
    [| lia | change (2^12) with 4096; arith | change (2^12) with 4096; arith].
  apply (lor_add _ _ 6); [lia| change (2^6) with 64; arith | change (2^6) with 64; arith].
Qed.

Lemma dec4_arith b0 b1 b2 b3 :
  Z.lor (Z.lor (Z.lor (Z.shiftl (Z.land b0 0x07) 18) (Z.shiftl (Z.land b1 0x3F) 12))
               (Z.shiftl (Z.land b2 0x3F) 6))
        (Z.land b3 0x3F)
  = (b0 mod 8) * 262144 + (b1 mod 64) * 4096 + (b2 mod 64) * 64 + b3 mod 64.
Proof.
  rewrite land07, !land3F, !Z.shiftl_mul_pow2 by lia.
  change (2 ^ 6) with 64. change (2 ^ 12) with 4096. change (2 ^ 18) with 262144.
  rewrite (lor_add (b0 mod 8 * 262144) _ 18);
    [| lia | change (2^18) with 262144; arith | change (2^18) with 262144; arith].
  rewrite (lor_add _ (b2 mod 64 * 64) 12);
    [| lia | change (2^12) with 4096; arith | change (2^12) with 4096; arith].
  apply (lor_add _ _ 6); [lia| change (2^6) with 64; arith | change (2^6) with 64; arith].
Qed.

Ltac decide_tests :=
  repeat match goal with
  | |- context [?a <? ?b] =>
      first [ replace (a <? b) with true by (symmetry; apply Z.ltb_lt; arith)
            | replace (a <? b) with false by (symmetry; apply Z.ltb_ge; arith) ]
  | |- context [?a <=? ?b] =>
      first [ replace (a <=? b) with true by (symmetry; apply Z.leb_le; arith)
            | replace (a <=? b) with false by (symmetry; apply Z.leb_gt; arith) ]
  end.

Lemma decoderune_encodeRune (r : Z) (rest : string) :
  ValidRune r = true ->
  exists c t,
    encodeRune r = String c t
    /\ decoderune c (t ++ rest) = (r, S (String.length t))
    /\ dropBytes (String.length t) (t ++ rest) = rest
    /\ (0x80 <= r -> 0x80 <= byteZ c).
Proof.
  intros Hv.
  assert (Hr : 0 <= r < 0xD800 \/ 0xDFFF < r <= 0x10FFFF).
  { unfold ValidRune, surrogateMin, surrogateMax, MaxRune in Hv. lia. }
  destruct (Z_le_gt_dec r 0x7F) as [H1|H1];
    [|destruct (Z_le_gt_dec r 0x7FF) as [H2|H2];
      [|destruct (Z_le_gt_dec r 0xFFFF) as [H3|H3]]].
  - rewrite encodeRune_1 by lia. eexists _, _. split; [reflexivity|].
    split; [|split; [reflexivity|lia]].
    unfold decoderune. rewrite byteZ_zbyte by lia. cbv zeta.
    decide_tests. reflexivity.
  - rewrite encodeRune_2 by lia. eexists _, _. split; [reflexivity|].
    split; [|split; [reflexivity|intros _; rewrite byteZ_zbyte; arith]].
    unfold decoderune, isCont. cbn [append str1].
    rewrite dec2_arith, !byteZ_zbyte by arith. cbv zeta.
    match goal with
    | |- context [?a mod 32 * 64 + ?b mod 64] =>
        replace (a mod 32 * 64 + b mod 64) with r by arith
    end.
    decide_tests. reflexivity.
  - rewrite encodeRune_3 by (auto; lia). eexists _, _. split; [reflexivity|].
    split; [|split; [reflexivity|intros _; rewrite byteZ_zbyte; arith]].
    unfold decoderune, isCont, surrogateMin, surrogateMax. cbn [append str1].
    rewrite dec3_arith, !byteZ_zbyte by arith. cbv zeta.
    match goal with
    | |- context [?a mod 16 * 4096 + ?b mod 64 * 64 + ?c mod 64] =>
        replace (a mod 16 * 4096 + b mod 64 * 64 + c mod 64) with r by arith
    end.
    replace ((55296 <=? r) && (r <=? 57343)) with false
      by (symmetry; apply andb_false_iff; rewrite !Z.leb_gt; lia).
    decide_tests. reflexivity.
  - rewrite encodeRune_4 by lia. eexists _, _. split; [reflexivity|].
    split; [|split; [reflexivity|intros _; rewrite byteZ_zbyte; arith]].
    unfold decoderune, isCont, MaxRune. cbn [append str1].
    rewrite dec4_arith, !byteZ_zbyte by arith. cbv zeta.
    match goal with
    | |- context [?a mod 8 * 262144 + ?b mod 64 * 4096 + ?c mod 64 * 64 + ?e mod 64] =>
        replace (a mod 8 * 262144 + b mod 64 * 4096 + c mod 64 * 64 + e mod 64)
          with r by arith
    end.
    decide_tests. reflexivity.
Qed.

Lemma decoderune_valid (c : ascii) (t : string) :
  ValidRune (fst (decoderune c t)) = true.
Proof.
  pose proof (byteZ_range c) as Hc.
  assert (He : ValidRune RuneError = true) by reflexivity.
  unfold decoderune. cbv zeta.
  destruct (byteZ c <? 128) eqn:E0.
  { cbn [fst]. unfold ValidRune, surrogateMin. apply orb_true_iff. left. lia. }
  destruct ((192 <=? byteZ c) && (byteZ c <? 224)).
  { destruct t as [|c1 t]; [exact He|].
    destruct (isCont c1); [|exact He].
    rewrite dec2_arith.
    destruct (127 <? _) eqn:E1; [|exact He]. cbn [fst].
    unfold ValidRune, surrogateMin. apply orb_true_iff. left.
    apply andb_true_iff. rewrite Z.leb_le, Z.ltb_lt. arith. }
  destruct ((224 <=? byteZ c) && (byteZ c <? 240)).
  { destruct t as [|c1 [|c2 t]]; try exact He.
    destruct (isCont c1 && isCont c2); [|exact He].
    rewrite dec3_arith.
    set (r := _ + _ + _).
    assert (Hr : 0 <= r <= 0xFFFF) by (subst r; arith).
    destruct ((2047 <? r) && negb ((surrogateMin <=? r) && (r <=? surrogateMax))) eqn:E1;
      [|exact He].
    cbn [fst]. unfold ValidRune, surrogateMin, surrogateMax, MaxRune in *. lia. }
  destruct ((240 <=? byteZ c) && (byteZ c <? 248)).
  { destruct t as [|c1 [|c2 [|c3 t]]]; try exact He.
    destruct (isCont c1 && isCont c2 && isCont c3); [|exact He].
    rewrite dec4_arith.
    set (r := _ + _ + _ + _).
    destruct ((65535 <? r) && (r <=? MaxRune)) eqn:E1; [|exact He].
    cbn [fst]. unfold ValidRune, surrogateMin, surrogateMax, MaxRune in *. lia. }
  exact He.
Qed.

Lemma runes_valid (s : string) : Forall (fun r => ValidRune r = true) (runes s).
Proof.
  funelim (runes s); simp runes; constructor; auto using decoderune_valid.
Qed.

Lemma runes_encodeRune (r : Z) (rest : string) :
  ValidRune r = true -> runes (encodeRune r ++ rest) = r :: runes rest.
Proof.
  intros Hv. destruct (decoderune_encodeRune r rest Hv) as (c & t & He & Hd & Hdrop & _).
  rewrite He. cbn [append]. simp runes. rewrite Hd. cbn [fst snd].
  replace (S (String.length t) - 1)%nat with (String.length t) by lia.
  now rewrite Hdrop.
Qed.

Section EscapingProps.

Variable inPrintRanges : Z -> bool.

Lemma printableASCII_needsEscaping (s : string) :
  printableASCII s = true -> needsEscaping inPrintRanges s = false.
Proof.
  unfold needsEscaping.
  induction s as [|c t IH]; intros H.
  - now simp runes.
  - simpl in H. repeat (apply andb_true_iff in H as [H ?]).
    rewrite runes_ascii by lia. simpl.
    rewrite IH by assumption.
    unfold IsPrint.
    replace ((0 <=? byteZ c) && (byteZ c <=? 255)) with true by (symmetry; lia).
    replace ((32 <=? byteZ c) && (byteZ c <=? 126)) with true by (symmetry; lia).
    destruct (byteZ c =? 34); [discriminate|reflexivity].
Qed.

End EscapingProps.

(** ** Escaping: control characters and reading back *)

Lemma plainASCII_app (a b : string) :
  plainASCII (a ++ b) = plainASCII a && plainASCII b.
Proof.
  induction a as [|c a IH]; simpl; [reflexivity|]. rewrite IH. now rewrite andb_assoc.
Qed.

Lemma runes_plainASCII_app (p rest : string) :
  plainASCII p = true ->
  exists rs, runes (p ++ rest) = (rs ++ runes rest)%list
             /\ Forall (fun r => IsControl r = false) rs.
Proof.
  induction p as [|c p IH]; intros H.
  - exists []. split; [reflexivity|constructor].
  - simpl in H. apply andb_true_iff in H as [H Hp].
    destruct (IH Hp) as (rs & Hrs & Hall).
    exists (byteZ c :: rs). cbn [append]. rewrite runes_ascii by lia.
    rewrite Hrs. split; [reflexivity|]. constructor; [|assumption].
    unfold IsControl. lia.
Qed.

Lemma hexAt_range (i : Z) : 48 <= byteZ (hexAt i) <= 102.
Proof.
  unfold hexAt. generalize (Z.to_nat i) as n. intros n.
  do 16 (destruct n as [|n]; [vm_compute; split; discriminate|]).
  vm_compute; split; discriminate.
Qed.

Lemma unhex_hexAt (x : Z) : 0 <= x < 16 -> unhex (hexAt x) = Some x.
Proof.
  intros H.
  assert (Hx : x = 0 \/ x = 1 \/ x = 2 \/ x = 3 \/ x = 4 \/ x = 5 \/ x = 6 \/ x = 7
               \/ x = 8 \/ x = 9 \/ x = 10 \/ x = 11 \/ x = 12 \/ x = 13 \/ x = 14
               \/ x = 15) by lia.
  repeat (destruct Hx as [->|Hx]; [reflexivity|]). now subst x.
Qed.

Lemma plainASCII_hexDigits (shifts : list Z) (r : Z) :
  plainASCII (hexDigits shifts r) = true.
Proof.
  unfold hexDigits. induction shifts as [|s shifts IH]; [reflexivity|].
  cbn [map string_of_list_ascii plainASCII]. rewrite IH.
  pose proof (hexAt_range (Z.land (Z.shiftr r s) 15)). 
  rewrite andb_true_r. apply andb_true_iff. lia.
Qed.

Section RoundTrip.

Variable inPrintRanges : Z -> bool.

Lemma IsPrint_not_control (r : Z) :
  IsPrint inPrintRanges r = true -> IsControl r = false.
Proof.
  unfold IsPrint, IsControl.
  destruct ((0 <=? r) && (r <=? 255)) eqn:E; intros H; lia.
Qed.

Lemma escapeRune_runes (q : bool) (r : Z) (rest : string) :
  ValidRune r = true ->
  exists rs, runes (escapeRune inPrintRanges q r ++ rest) = (rs ++ runes rest)%list
             /\ Forall (fun x => IsControl x = false) rs.
Proof.
  intros Hv. unfold escapeRune.
  destruct (q && (r =? 34)); [now apply runes_plainASCII_app|].
  destruct (IsPrint inPrintRanges r) eqn:Hp.
  { exists [r]. rewrite runes_encodeRune by assumption. split; [reflexivity|].
    constructor; [|constructor]. now apply IsPrint_not_control. }
  repeat match goal with
  | |- context [if ?b then _ else _] =>
      destruct b; [apply runes_plainASCII_app;
                   rewrite ?plainASCII_app, ?plainASCII_hexDigits; try reflexivity|]
  end.
  - change (plainASCII "\x") with true. cbn [plainASCII str1 andb].
    pose proof (hexAt_range (Z.shiftr (r mod 256) 4)).
    pose proof (hexAt_range (Z.land (r mod 256) 15)).
    rewrite !andb_true_r. apply andb_true_iff. split; lia.
  - apply runes_plainASCII_app.
    now rewrite ?plainASCII_app, ?plainASCII_hexDigits.
Qed.

Lemma joined_runes (q : bool) (rs : list Z) :
  Forall (fun r => ValidRune r = true) rs ->
  Forall (fun x => IsControl x = false)
    (runes (joinAll (map (escapeRune inPrintRanges q) rs))).
Proof.
  induction 1 as [|r rs Hr _ IH]; cbn [map joinAll].
  - simp runes. constructor.
  - destruct (escapeRune_runes q r (joinAll (map (escapeRune inPrintRanges q) rs)) Hr)
      as (p & Hp & Hall).
    rewrite Hp. apply Forall_app. split; assumption.
Qed.

Lemma unescapeFrom_skip0 (q : bool) (s : string) :
  unescapeFrom q (Skip 0) s = unescapeFrom q Normal s.
Proof. destruct s; reflexivity. Qed.

Lemma unescapeFrom_skip (q : bool) (t rest : string) :
  unescapeFrom q (Skip (String.length t)) (t ++ rest) = unescapeFrom q Normal rest.
Proof.
  induction t as [|c t IH]; [apply unescapeFrom_skip0|exact IH].
Qed.

Lemma byteZ_BS : byteZ BS = 92. Proof. reflexivity. Qed.
Lemma byteZ_LF : byteZ LF = 10. Proof. reflexivity. Qed.
Lemma byteZ_DQ : byteZ DQ = 34. Proof. reflexivity. Qed.

Lemma ascii_eqb_byteZ (a b : ascii) : Ascii.eqb a b = (byteZ a =? byteZ b).
Proof.
  destruct (Ascii.eqb_spec a b) as [->|Hne].
  - now rewrite Z.eqb_refl.
  - symmetry. apply Z.eqb_neq. intros H. apply Hne. now apply byteZ_inj.
Qed.

Lemma unescape_copy (q : bool) (c : ascii) (t : string) :
  byteZ c <> 92 -> byteZ c <> 10 -> (q = true -> byteZ c <> 34) ->
  unescapeFrom q Normal (String c t) =
  if byteZ c <? 0x80 then emit (str1 c) (unescapeFrom q Normal t)
  else emit (encodeRune (fst (decoderune c t)))
            (unescapeFrom q (Skip (snd (decoderune c t) - 1)) t).
Proof.
  intros H1 H2 H3. cbn [unescapeFrom].
  rewrite !ascii_eqb_byteZ, byteZ_BS, byteZ_LF, byteZ_DQ.
  replace (byteZ c =? 92) with false by (symmetry; lia).
  replace (byteZ c =? 10) with false by (symmetry; lia).
  replace (q && (byteZ c =? 34)) with false; [reflexivity|].
  symmetry. destruct q; [|reflexivity]. specialize (H3 eq_refl). cbn [andb]. lia.
Qed.

Lemma unescape_encodeRune (q : bool) (r : Z) (rest : string) :
  ValidRune r = true -> r <> 92 -> r <> 10 -> (q = true -> r <> 34) ->
  unescapeFrom q Normal (encodeRune r ++ rest) =
  emit (encodeRune r) (unescapeFrom q Normal rest).
Proof.
  intros Hv H1 H2 H3.
  destruct (decoderune_encodeRune r rest Hv) as (c & t & He & Hd & Hdrop & Hhi).
  assert (Hr : 0 <= r)
    by (unfold ValidRune, surrogateMin, surrogateMax, MaxRune in Hv; lia).
  destruct (Z_lt_ge_dec r 0x80) as [Hlo|Hge].
  - rewrite encodeRune_1 by lia. cbn [append str1].
    rewrite unescape_copy; rewrite ?byteZ_zbyte by lia; auto.
    replace (r <? 128) with true by (symmetry; lia). reflexivity.
  - specialize (Hhi ltac:(lia)). rewrite He. cbn [append].
    rewrite unescape_copy by (intros; lia).
    replace (byteZ c <? 128) with false by (symmetry; lia).
    rewrite Hd. cbn [fst snd].
    replace (S (String.length t) - 1)%nat with (String.length t) by lia.
    now rewrite unescapeFrom_skip, <- He.
Qed.

Lemma hex_acc (acc x : Z) : 0 <= x < 16 -> Z.lor (Z.shiftl acc 4) x = 16 * acc + x.
Proof.
  intros H. rewrite Z.shiftl_mul_pow2 by lia. change (2 ^ 4) with 16.
  rewrite (lor_add _ _ 4); [lia|lia|change (2 ^ 4) with 16; lia|].
  change (2 ^ 4) with 16. apply Z.mod_mul. lia.
Qed.

Lemma hex_step (q mb : bool) (n : nat) (acc x : Z) (t : string) :
  0 <= x < 16 ->
  unescapeFrom q (Hex mb (S (S n)) acc) (String (hexAt x) t) =
  unescapeFrom q (Hex mb (S n) (16 * acc + x)) t.
Proof.
  intros H. cbn [unescapeFrom]. now rewrite unhex_hexAt, hex_acc.
Qed.

Lemma hex_last (q mb : bool) (acc x : Z) (t : string) :
  0 <= x < 16 ->
  unescapeFrom q (Hex mb 1 acc) (String (hexAt x) t) =
  if mb then
    if ValidRune (16 * acc + x)
    then emit (encodeRune (16 * acc + x)) (unescapeFrom q Normal t)
    else None
  else emit (str1 (zbyte (16 * acc + x))) (unescapeFrom q Normal t).
Proof.
  intros H. cbn [unescapeFrom]. now rewrite unhex_hexAt, hex_acc.
Qed.

Lemma nibble (r s : Z) : 0 <= s -> 0 <= Z.land (Z.shiftr r s) 0xF < 16.
Proof.
  intros Hs. change 0xF with (2 ^ 4 - 1). rewrite land_mask by lia.
  change (2 ^ 4) with 16. apply Z.mod_pos_bound. lia.
Qed.

Lemma nibble_val (r s : Z) : 0 <= s -> Z.land (Z.shiftr r s) 0xF = (r / 2 ^ s) mod 16.
Proof.
  intros Hs. change 0xF with (2 ^ 4 - 1). rewrite land_mask by lia.
  now rewrite Z.shiftr_div_pow2 by lia.
Qed.


Lemma unescape_escapeRune (q : bool) (r : Z) (rest : string) :
  ValidRune r = true -> r <> 92 ->
  unescapeFrom q Normal (escapeRune inPrintRanges q r ++ rest) =
  emit (encodeRune r) (unescapeFrom q Normal rest).
Proof.
  intros Hv Hbs.
  assert (Hr : 0 <= r <= 0x10FFFF)
    by (unfold ValidRune, surrogateMin, surrogateMax, MaxRune in Hv; lia).
  unfold escapeRune.
  destruct (q && (r =? 34)) eqn:Hq.
  { apply andb_true_iff in Hq as [-> Hq]. apply Z.eqb_eq in Hq as ->. reflexivity. }
  destruct (IsPrint inPrintRanges r) eqn:Hp.
  { apply unescape_encodeRune; auto.
    - intros ->. discriminate Hp.
    - intros ->. cbn [andb] in Hq. lia. }
  destruct (Z.eqb_spec r 7) as [->|_]; [reflexivity|].
  destruct (Z.eqb_spec r 8) as [->|_]; [reflexivity|].
  destruct (Z.eqb_spec r 12) as [->|_]; [reflexivity|].
  destruct (Z.eqb_spec r 10) as [->|_]; [reflexivity|].
  destruct (Z.eqb_spec r 13) as [->|_]; [reflexivity|].
  destruct (Z.eqb_spec r 9) as [->|_]; [reflexivity|].
  destruct (Z.eqb_spec r 11) as [->|_]; [reflexivity|].
  destruct (Z.ltb_spec r 32) as [Hlt|Hge].
  { rewrite Z.mod_small by lia.
    change ("\x" ++ ?a) with (String BS (String "x" a)). cbn [append str1].
    change (unescapeFrom q Normal (String BS (String "x" ?a)))
      with (unescapeFrom q (Hex false 2 0) a).
    replace (Z.shiftr r 4) with (Z.land (Z.shiftr r 4) 0xF)
      by (rewrite nibble_val, Z.shiftr_div_pow2 by lia; change (2 ^ 4) with 16; arith).
    replace (Z.land r 15) with (Z.land (Z.shiftr r 0) 15) by (now rewrite Z.shiftr_0_r).
    rewrite hex_step, hex_last by (apply nibble; lia).
    rewrite !nibble_val by lia. rewrite encodeRune_1 by lia.
    do 3 f_equal. change (2 ^ 4) with 16. change (2 ^ 0) with 1. arith. }
  rewrite Hv. cbn [negb].
  destruct (Z.ltb_spec r 0x10000) as [Hlt|Hge'].
  - unfold hexDigits. cbn [map string_of_list_ascii].
    change ("\u" ++ ?a) with (String BS (String "u" a)). cbn [append].
    change (unescapeFrom q Normal (String BS (String "u" ?a)))
      with (unescapeFrom q (Hex true 4 0) a).
    rewrite !hex_step, hex_last by (apply nibble; lia).
    rewrite !nibble_val by lia.
    change (2 ^ 12) with 4096. change (2 ^ 8) with 256. change (2 ^ 4) with 16.
    change (2 ^ 0) with 1.
    match goal with
    | |- context [ValidRune ?v] => replace v with r by arith
    end.
    now rewrite Hv.
  - unfold hexDigits. cbn [map string_of_list_ascii].
    change ("\U" ++ ?a) with (String BS (String "U" a)). cbn [append].
    change (unescapeFrom q Normal (String BS (String "U" ?a)))
      with (unescapeFrom q (Hex true 8 0) a).
    rewrite !hex_step, hex_last by (apply nibble; lia).
    rewrite !nibble_val by lia.
    change (2 ^ 28) with 268435456. change (2 ^ 24) with 16777216.
    change (2 ^ 20) with 1048576. change (2 ^ 16) with 65536.
    change (2 ^ 12) with 4096. change (2 ^ 8) with 256. change (2 ^ 4) with 16.
    change (2 ^ 0) with 1.
    match goal with
    | |- context [ValidRune ?v] => replace v with r by arith
    end.
    now rewrite Hv.
Qed.

Lemma escapeRune_printable (q : bool) (r : Z) :
  IsPrint inPrintRanges r = true -> r <> 34 ->
  escapeRune inPrintRanges q r = encodeRune r.
Proof.
  intros Hp Hq. unfold escapeRune.
  replace (r =? 34) with false by (symmetry; lia).
  now rewrite andb_false_r, Hp.
Qed.

Lemma escape_joined (s : string) (q : bool) :
  ValidString s = true ->
  escapeStringForOutput inPrintRanges s q
  = joinAll (map (escapeRune inPrintRanges q) (runes s)).
Proof.
  intros Hs. unfold escapeStringForOutput.
  destruct (needsEscaping inPrintRanges s) eqn:E; [reflexivity|]. cbn [negb].
  apply String.eqb_eq in Hs. rewrite <- Hs at 1. f_equal.
  apply map_ext_in. intros r Hin. symmetry.
  unfold needsEscaping in E.
  assert (Hr : negb (IsPrint inPrintRanges r) || (r =? 34) = false).
  { destruct (negb (IsPrint inPrintRanges r) || (r =? 34)) eqn:Hr; [|reflexivity].
    rewrite <- E. symmetry. apply existsb_exists. now exists r. }
  apply orb_false_iff in Hr as [Hp Hq]. apply negb_false_iff in Hp.
  apply escapeRune_printable; [assumption|lia].
Qed.

Lemma unescape_joined (q : bool) (rs : list Z) :
  Forall (fun r => ValidRune r = true) rs -> ~ In 92 rs ->
  unescapeFrom q Normal (joinAll (map (escapeRune inPrintRanges q) rs))
  = Some (joinAll (map encodeRune rs)).
Proof.
  induction 1 as [|r rs Hr _ IH]; intros Hbs; cbn [map joinAll]; [reflexivity|].
  rewrite unescape_escapeRune; [|assumption|intros ->; apply Hbs; now left].
  rewrite IH; [reflexivity|]. intros Hin. apply Hbs. now right.
Qed.

End RoundTrip.

(** ** The loop of the text renderer *)

Lemma pair_ind {A : Type} (P : list A -> Prop) :
  P [] -> (forall x, P [x]) -> (forall x y l, P l -> P (x :: y :: l)) ->
  forall l, P l.
Proof.
  intros H0 H1 H2.
  assert (H : forall l, P l /\ forall x, P (x :: l)).
  { induction l as [|y l [IH1 IH2]]; split; auto. }
  intros l. apply H.
Qed.

Section RendererProps.

Variable inPrintRanges : Z -> bool.
Variable d : Decls.
Variable st : Styles.

Lemma textFields_even (tf : string) (len : Z) (kvs : list value) :
  Nat.even (List.length kvs) = true ->
  forall i,
    textFields inPrintRanges d st tf len i kvs
    = Some (fieldsOf inPrintRanges d st tf len i kvs).
Proof.
  pattern kvs. apply pair_ind; clear kvs.
  - reflexivity.
  - intros x H. discriminate H.
  - intros k v rest IH H i. cbn [textFields fieldsOf].
    now rewrite IH.
Qed.

Lemma textFields_odd (tf : string) (len : Z) (kvs : list value) :
  Nat.even (List.length kvs) = false ->
  forall i, textFields inPrintRanges d st tf len i kvs = None.
Proof.
  pattern kvs. apply pair_ind; clear kvs.
  - intros H. discriminate H.
  - reflexivity.
  - intros k v rest IH H i. cbn [textFields]. now rewrite IH.
Qed.

Lemma fieldsOf_app (tf : string) (len : Z) (a b : list value) :
  Nat.even (List.length a) = true ->
  forall i,
    fieldsOf inPrintRanges d st tf len i (a ++ b)
    = fieldsOf inPrintRanges d st tf len i a
      ++ fieldsOf inPrintRanges d st tf len (i + Z.of_nat (List.length a)) b.
Proof.
  pattern a. apply pair_ind; clear a.
  - intros _ i. cbn. now rewrite Z.add_0_r.
  - intros x H. discriminate H.
  - intros k v rest IH H i. cbn [app fieldsOf].
    rewrite IH by exact H. rewrite append_assoc. do 2 f_equal.
    cbn [List.length]. f_equal. lia.
Qed.

End RendererProps.

(** ** The assembler *)

Section AssemblerProps.

Variable inPrintRanges : Z -> bool.
Variable d : Decls.
Variable st : Styles.

Lemma assemble_eq (l : logger) (stack : list Frame) (lvl : Z) (msg : value)
    (kvs : list value) :
  assemble d l stack lvl msg kvs
  = (reservedFields d l stack lvl msg ++ keyvals l ++ kvs)%list.
Proof.
  unfold assemble, reservedFields.
  destruct (fillLoc l stack (callerOffset l + 2)) as [[file line] fn]. cbn [fst snd].
  destruct (timestamp l), (negb (lvl =? noLevel d)), (caller l),
    (negb (String.eqb (prefix l) EmptyString)), msg; reflexivity.
Qed.

Lemma reservedFields_even (l : logger) (stack : list Frame) (lvl : Z) (msg : value) :
  Nat.even (List.length (reservedFields d l stack lvl msg)) = true.
Proof.
  unfold reservedFields.
  destruct (timestamp l), (negb (lvl =? noLevel d)), (caller l),
    (negb (String.eqb (prefix l) EmptyString)), (isNil msg); reflexivity.
Qed.

Lemma reservedFields_keys (l : logger) (stack : list Frame) (lvl : Z) (msg : value) :
  keysOf (reservedFields d l stack lvl msg)
  = map VString
      (select [timestamp l; negb (lvl =? noLevel d); caller l;
               negb (String.eqb (prefix l) EmptyString); negb (isNil msg)]
              [TimestampKey d; LevelKey d; CallerKey d; PrefixKey d; MessageKey d]).
Proof.
  unfold reservedFields.
  destruct (timestamp l), (negb (lvl =? noLevel d)), (caller l),
    (negb (String.eqb (prefix l) EmptyString)), (isNil msg); reflexivity.
Qed.

Lemma even_app {A : Type} (a b : list A) :
  Nat.even (List.length (a ++ b))
  = negb (xorb (Nat.even (List.length a)) (Nat.even (List.length b))).
Proof.
  rewrite length_app, Nat.even_add.
  destruct (Nat.even (List.length a)), (Nat.even (List.length b)); reflexivity.
Qed.

Lemma log_accepted (l : logger) (stack : list Frame) (lvl : Z) (msg : value)
    (kvs : list value) :
  w l = Sink -> level l <= lvl -> formatter l = TextFormatter ->
  log inPrintRanges d st l stack lvl msg kvs
  = Formatted (assemble d l stack lvl msg kvs)
      (textFormatter inPrintRanges d st (timeFormat l) (assemble d l stack lvl msg kvs)).
Proof.
  intros Hw Hl Hf. unfold log. rewrite Hw, Hf.
  replace (level l >? lvl) with false by (symmetry; lia). reflexivity.
Qed.

(** Odd-length call keyvals after an even number of bound fields: the
    sequence handed to the formatter ends with the unpaired key, and the
    formatter panics on it. *)
Lemma log_odd_keyvals (l : logger) (stack : list Frame) (lvl : Z) (msg : value)
    (kvs : list value) :
  w l = Sink -> level l <= lvl -> formatter l = TextFormatter ->
  Nat.even (List.length (keyvals l)) = true ->
  Nat.even (List.length kvs) = false ->
  log inPrintRanges d st l stack lvl msg kvs
  = Formatted (reservedFields d l stack lvl msg ++ keyvals l ++ kvs)%list None.
Proof.
  intros Hw Hl Hf Hb Hk. rewrite log_accepted by assumption.
  rewrite assemble_eq. f_equal. unfold textFormatter.
  rewrite textFields_odd; [reflexivity|].
  rewrite !even_app, reservedFields_even, Hb, Hk. reflexivity.
Qed.

Lemma textFormatter_even (tf : string) (kvs : list value) :
  Nat.even (List.length kvs) = true ->
  textFormatter inPrintRanges d st tf kvs
  = Some (fieldsOf inPrintRanges d st tf (Z.of_nat (List.length kvs)) 0 kvs ++ str1 LF).
Proof.
  intros H. unfold textFormatter. now rewrite textFields_even.
Qed.



End AssemblerProps.


(** ** Multi-line values *)

Lemma segments_no_LF (s : string) : IndexByte s LF = None -> segments s = [s].
Proof.
  induction s as [|c t IH]; cbn [IndexByte segments]; [reflexivity|].
  destruct (Ascii.eqb c LF); [discriminate|].
  destruct (IndexByte t LF); [discriminate|]. intros _. now rewrite IH.
Qed.

Lemma segments_LF (s : string) (nl : nat) :
  IndexByte s LF = Some nl ->
  segments s = takeBytes nl s :: segments (dropBytes (S nl) s).
Proof.
  revert nl. induction s as [|c t IH]; cbn [IndexByte segments]; [discriminate|].
  intros nl. destruct (Ascii.eqb c LF).
  - intros [= <-]. reflexivity.
  - destruct (IndexByte t LF) as [i|]; [|discriminate].
    intros [= <-]. rewrite (IH i eq_refl). reflexivity.
Qed.

Section Indent.

Variable inPrintRanges : Z -> bool.
Variable st : Styles.

Lemma segments_nonempty (s : string) : segments s <> [].
Proof.
  destruct s as [|c t]; cbn [segments]; [discriminate|].
  destruct (Ascii.eqb c LF); [discriminate|].
  destruct (segments t); discriminate.
Qed.

Lemma writeIndent_segments (str indent : string) (newline : bool) (key : string) :
  writeIndent inPrintRanges st str indent newline key
  = indentLines inPrintRanges st indent newline key (segments str).
Proof.
  funelim (writeIndent inPrintRanges st str indent newline key).
  - rewrite (segments_LF _ _ e).
    match goal with
    | IH : writeIndent _ _ _ _ _ _ = indentLines _ _ _ _ _ _ |- _ => rewrite IH
    end.
    cbn [indentLines].
    destruct (segments (dropBytes (S nl) str)) eqn:E; [|reflexivity].
    now apply segments_nonempty in E.
  - rewrite (segments_no_LF _ e). reflexivity.
Qed.

End Indent.

(** ** Reserved keys *)

Section KeyProps.

Variable inPrintRanges : Z -> bool.
Variable d : Decls.
Variable st : Styles.

Lemma keysDistinct_neq :
  keysDistinct d ->
  TimestampKey d <> LevelKey d /\ TimestampKey d <> CallerKey d
  /\ TimestampKey d <> PrefixKey d /\ TimestampKey d <> MessageKey d
  /\ LevelKey d <> CallerKey d /\ LevelKey d <> PrefixKey d
  /\ LevelKey d <> MessageKey d /\ CallerKey d <> PrefixKey d
  /\ CallerKey d <> MessageKey d /\ PrefixKey d <> MessageKey d.
Proof.
  unfold keysDistinct. intros H.
  repeat match goal with
  | H : NoDup (_ :: _) |- _ => inversion H; subst; clear H
  end.
  cbn [In] in *. intuition congruence.
Qed.

Lemma isKey_string (a K : string) : isKey (VString a) K = String.eqb a K.
Proof. reflexivity. Qed.

Lemma textField_level (tf : string) (first more : bool) (lv : Z) :
  keysDistinct d ->
  textField inPrintRanges d st tf first more (VString (LevelKey d)) (VLevel lv)
  = writeSpace first ++ levelStyle st lv.
Proof.
  intros H. apply keysDistinct_neq in H. unfold textField.
  rewrite !isKey_string, String.eqb_refl.
  replace (String.eqb (LevelKey d) (TimestampKey d)) with false; [reflexivity|].
  symmetry. apply String.eqb_neq. intuition congruence.
Qed.

Lemma textField_message (tf : string) (first more : bool) (m : string) :
  keysDistinct d ->
  textField inPrintRanges d st tf first more (VString (MessageKey d)) (VString m)
  = writeSpace first ++ MessageStyle st m.
Proof.
  intros H. apply keysDistinct_neq in H. unfold textField.
  rewrite !isKey_string, String.eqb_refl.
  replace (String.eqb (MessageKey d) (TimestampKey d)) with false
    by (symmetry; apply String.eqb_neq; intuition congruence).
  replace (String.eqb (MessageKey d) (LevelKey d)) with false
    by (symmetry; apply String.eqb_neq; intuition congruence).
  replace (String.eqb (MessageKey d) (CallerKey d)) with false
    by (symmetry; apply String.eqb_neq; intuition congruence).
  replace (String.eqb (MessageKey d) (PrefixKey d)) with false
    by (symmetry; apply String.eqb_neq; intuition congruence).
  reflexivity.
Qed.


End KeyProps.

(** ** Custom pairs *)

Section CustomProps.

Variable inPrintRanges : Z -> bool.
Variable d : Decls.
Variable st : Styles.

Lemma isCustom_keys (k : value) :
  isCustom d k = true ->
  isKey k (TimestampKey d) = false /\ isKey k (LevelKey d) = false
  /\ isKey k (CallerKey d) = false /\ isKey k (PrefixKey d) = false
  /\ isKey k (MessageKey d) = false.
Proof.
  unfold isCustom. rewrite negb_true_iff, !orb_false_iff. tauto.
Qed.

(** Under a custom key the switch takes its default branch. *)
Lemma textField_default (tf : string) (first more : bool) (k v : value) :
  isCustom d k = true ->
  textField inPrintRanges d st tf first more k v
  = if String.eqb (Sprint d k) EmptyString then EmptyString
    else if containsByte
              (if String.eqb (SprintPlusV d v) EmptyString
               then String DQ (str1 DQ) else SprintPlusV d v) LF
    then
      String LF "  " ++ styledKey st (Sprint d k)
      ++ (SeparatorStyle st separator ++ str1 LF)
      ++ writeIndent inPrintRanges st
           (if String.eqb (SprintPlusV d v) EmptyString
            then String DQ (str1 DQ) else SprintPlusV d v)
           (SeparatorStyle st indentSeparator) more (Sprint d k)
    else if negb (String.eqb (SprintPlusV d v) EmptyString)
            && needsQuoting
                 (if String.eqb (SprintPlusV d v) EmptyString
                  then String DQ (str1 DQ) else SprintPlusV d v)
    then
      writeSpace first ++ styledKey st (Sprint d k) ++ SeparatorStyle st separator
      ++ lastLineStyle st (Sprint d k)
           (str1 DQ
            ++ escapeStringForOutput inPrintRanges
                 (if String.eqb (SprintPlusV d v) EmptyString
                  then String DQ (str1 DQ) else SprintPlusV d v) true
            ++ str1 DQ)
    else
      writeSpace first ++ styledKey st (Sprint d k) ++ SeparatorStyle st separator
      ++ lastLineStyle st (Sprint d k)
           (if String.eqb (SprintPlusV d v) EmptyString
            then String DQ (str1 DQ) else SprintPlusV d v).
Proof.
  intros Hc. destruct (isCustom_keys k Hc) as (H1 & H2 & H3 & H4 & H5).
  unfold textField. rewrite H1, H2, H3, H4, H5. reflexivity.
Qed.

End CustomProps.

(** ** Caller resolution *)

Lemma walkFrames_first_non_helper (hs : list string) (pre : list Frame) (f : Frame)
    (rest : list Frame) :
  Forall (fun x => isHelper hs (Function x) = true) pre ->
  isHelper hs (Function f) = false ->
  walkFrames hs (pre ++ f :: rest) = f.
Proof.
  intros Hpre Hf. induction Hpre as [|x pre Hx _ IH]; cbn [app walkFrames].
  - rewrite Hf. cbn [negb]. now destruct rest.
  - rewrite Hx. cbn [negb]. rewrite IH. now destruct (pre ++ f :: rest)%list eqn:E;
      [destruct pre; discriminate E|].
Qed.

Lemma walkFrames_last (hs : list string) (pre : list Frame) (f : Frame) :
  Forall (fun x => isHelper hs (Function x) = true) pre ->
  walkFrames hs (pre ++ [f]) = f.
Proof.
  intros Hpre. induction Hpre as [|x pre Hx _ IH]; cbn [app walkFrames]; [reflexivity|].
  rewrite Hx. cbn [negb]. rewrite IH.
  now destruct (pre ++ [f])%list eqn:E; [destruct pre; discriminate E|].
Qed.

Lemma Callers_length (stack : list Frame) (skip : Z) (max : nat) :
  (List.length (Callers stack skip max) <= max)%nat.
Proof.
  unfold Callers. rewrite length_firstn. lia.
Qed.

Lemma Callers_skip (inner frames : list Frame) (skip : Z) (max : nat) :
  Z.to_nat skip = List.length inner ->
  Callers (inner ++ frames) skip max = firstn max frames.
Proof.
  intros H. unfold Callers. rewrite H. f_equal.
  rewrite skipn_app, skipn_all, Nat.sub_diag. reflexivity.
Qed.

Lemma isHelper_LoadOrStore (hs : list string) (fn : string) :
  isHelper (LoadOrStore hs fn) fn = true.
Proof.
  unfold LoadOrStore. destruct (isHelper hs fn) eqn:E; [exact E|].
  cbn [isHelper existsb]. now rewrite String.eqb_refl.
Qed.

Lemma isHelper_LoadOrStore_mono (hs : list string) (fn fn' : string) :
  isHelper hs fn' = true -> isHelper (LoadOrStore hs fn) fn' = true.
Proof.
  intros H. unfold LoadOrStore. destruct (isHelper hs fn); [exact H|].
  cbn [isHelper existsb]. unfold isHelper in H. rewrite H. apply orb_true_r.
Qed.

Lemma LoadOrStore_idempotent (hs : list string) (fn : string) :
  LoadOrStore (LoadOrStore hs fn) fn = LoadOrStore hs fn.
Proof.
  unfold LoadOrStore at 1. now rewrite isHelper_LoadOrStore.
Qed.

Lemma helper_idempotent (l : logger) (stack : list Frame) (skip : Z) :
  helper (helper l stack skip) stack skip = helper l stack skip.
Proof.
  unfold helper. destruct (location stack (skip + 1)) as [[file line] fn].
  unfold setHelpers. cbn. now rewrite LoadOrStore_idempotent.
Qed.

(** ** Path trimming *)

Lemma LastIndexByte_last (a b : string) (c : ascii) :
  LastIndexByte b c = None ->
  LastIndexByte (a ++ String c b) c = Some (String.length a).
Proof.
  intros Hb. induction a as [|x a IH]; cbn [append LastIndexByte String.length].
  - now rewrite Hb, Ascii.eqb_refl.
  - now rewrite IH.
Qed.

Lemma takeBytes_app (a b : string) : takeBytes (String.length a) (a ++ b) = a.
Proof.
  induction a as [|x a IH]; cbn; [now destruct b|]. now rewrite IH.
Qed.

Lemma dropBytes_app_cons (a b : string) (c : ascii) :
  dropBytes (S (String.length a)) (a ++ String c b) = b.
Proof.
  induction a as [|x a IH]; cbn; [reflexivity|exact IH].
Qed.

(** [trimCallerPath] keeps the last two segments, and the whole path when it
    has fewer than two separators. *)
Lemma trimCallerPath_spec :
  (forall path, LastIndexByte path "/"%char = None -> trimCallerPath path = path)
  /\ (forall a b,
        LastIndexByte a "/"%char = None -> LastIndexByte b "/"%char = None ->
        trimCallerPath (a ++ String "/" b) = a ++ String "/" b)
  /\ (forall pre dir file,
        LastIndexByte dir "/"%char = None -> LastIndexByte file "/"%char = None ->
        trimCallerPath (pre ++ String "/" (dir ++ String "/" file))
        = dir ++ String "/" file).
Proof.
  split; [|split].
  - intros path H. unfold trimCallerPath. now rewrite H.
  - intros a b Ha Hb. unfold trimCallerPath.
    rewrite LastIndexByte_last by assumption.
    now rewrite takeBytes_app, Ha.
  - intros pre dir file Hd Hf.
    assert (E : pre ++ String "/" (dir ++ String "/" file)
                = (pre ++ String "/" dir) ++ String "/" file)
      by (now rewrite append_assoc).
    unfold trimCallerPath. rewrite E.
    rewrite LastIndexByte_last by assumption.
    rewrite takeBytes_app.
    rewrite LastIndexByte_last by assumption.
    rewrite <- E. apply dropBytes_app_cons.
Qed.

(** * The claims *)

Lemma exampleDecls_keysDistinct : keysDistinct exampleDecls.
Proof.
  unfold keysDistinct. cbn.
  repeat (constructor; [cbn; intuition discriminate|]). constructor.
Qed.

Lemma exampleDecls_levelsOrdered : levelsOrdered exampleDecls.
Proof.
  unfold levelsOrdered. cbn. lia.
Qed.

Lemma plainStyles_disabled : stylesDisabled plainStyles.
Proof.
  unfold stylesDisabled. cbn. repeat split; reflexivity.
Qed.

Section Claims.

Variable inPrintRanges : Z -> bool.
Variable d : Decls.
Variable st : Styles.

Lemma textField_bare (tf : string) (first more : bool) (key val : string) :
  stylesDisabled st ->
  isCustom d (VString key) = true ->
  key <> EmptyString -> val <> EmptyString ->
  containsByte val LF = false -> needsQuoting val = false ->
  textField inPrintRanges d st tf first more (VString key) (VString val)
  = writeSpace first ++ key ++ "=" ++ val.
Proof.
  intros Hs Hc Hk Hv Hnl Hq.
  rewrite (textField_default inPrintRanges d st tf first more _ _ Hc).
  cbn [Sprint SprintPlusV].
  apply String.eqb_neq in Hk, Hv. rewrite Hk, Hv, Hnl, Hq. cbn [negb andb].
  destruct Hs as (_ & _ & _ & _ & Hks & Hvs & Hss & Hko & Hvo).
  unfold styledKey, lastLineStyle. now rewrite Hko, Hvo, Hks, Hvs, Hss.
Qed.

Lemma custom_field_shape (tf : string) (first more : bool) (k v : value) :
  isCustom d k = true -> Sprint d k <> EmptyString ->
  exists body,
    textField inPrintRanges d st tf first more k v
    = writeSpace first ++ styledKey st (Sprint d k) ++ SeparatorStyle st separator ++ body
    \/ textField inPrintRanges d st tf first more k v
       = String LF "  " ++ styledKey st (Sprint d k)
         ++ (SeparatorStyle st separator ++ str1 LF) ++ body.
Proof.
  intros Hc Hk.
  rewrite (textField_default inPrintRanges d st tf first more k v Hc).
  apply String.eqb_neq in Hk. rewrite Hk.
  destruct (containsByte _ LF); [eexists; right; reflexivity|].
  destruct (negb _ && needsQuoting _); eexists; left; reflexivity.
Qed.


(** C3, as amended.  For a pair whose key is none of the reserved keys the
    renderer appends: nothing when the display form of the key is empty;
    otherwise the key, the separator and two double quotes when the display
    form of the value is empty; when that form contains a line feed, a line
    feed and two spaces, the key, the separator, a line feed and the block
    [indentLines] of its segments, in which every segment but the last has
    the indent marker in front and a line feed behind, and the last one has
    the marker in front, a line feed behind only when more pairs follow
    ([moreKeys]), and is left out when empty; when the form has a rune
    outside '-'..'~', the key, the separator and the escaped form between
    double quotes; in the remaining case the key, the separator and the form
    as it is.  Key, separator and value pass through their styles. *)
Theorem custom_pair_rendering (tf : string) (first more : bool) (k v : value) :
  isCustom d k = true ->
  (Sprint d k = EmptyString ->
   textField inPrintRanges d st tf first more k v = EmptyString)
  /\ (Sprint d k <> EmptyString ->
      (SprintPlusV d v = EmptyString ->
       textField inPrintRanges d st tf first more k v
       = writeSpace first ++ styledKey st (Sprint d k) ++ SeparatorStyle st separator
         ++ lastLineStyle st (Sprint d k) (String DQ (str1 DQ)))
      /\ (containsByte (SprintPlusV d v) LF = true ->
          textField inPrintRanges d st tf first more k v
          = String LF "  " ++ styledKey st (Sprint d k)
            ++ (SeparatorStyle st separator ++ str1 LF)
            ++ indentLines inPrintRanges st (SeparatorStyle st indentSeparator) more
                 (Sprint d k) (segments (SprintPlusV d v)))
      /\ (SprintPlusV d v <> EmptyString ->
          containsByte (SprintPlusV d v) LF = false ->
          needsQuoting (SprintPlusV d v) = true ->
          textField inPrintRanges d st tf first more k v
          = writeSpace first ++ styledKey st (Sprint d k) ++ SeparatorStyle st separator
            ++ lastLineStyle st (Sprint d k)
                 (str1 DQ
                  ++ escapeStringForOutput inPrintRanges (SprintPlusV d v) true
                  ++ str1 DQ))
      /\ (SprintPlusV d v <> EmptyString ->
          containsByte (SprintPlusV d v) LF = false ->
          needsQuoting (SprintPlusV d v) = false ->
          textField inPrintRanges d st tf first more k v
          = writeSpace first ++ styledKey st (Sprint d k) ++ SeparatorStyle st separator
            ++ lastLineStyle st (Sprint d k) (SprintPlusV d v))).
Proof.
  intros Hc. rewrite (textField_default inPrintRanges d st tf first more k v Hc).
  split.
  - intros ->. reflexivity.
  - intros Hk. apply String.eqb_neq in Hk. rewrite Hk.
    split; [|split; [|split]].
    + intros ->. reflexivity.
    + intros Hnl.
      destruct (String.eqb_spec (SprintPlusV d v) EmptyString) as [He|Hne].
      * rewrite He in Hnl. discriminate Hnl.
      * now rewrite Hnl, writeIndent_segments.
    + intros Hne Hnl Hq. apply String.eqb_neq in Hne. now rewrite Hne, Hnl, Hq.
    + intros Hne Hnl Hq. apply String.eqb_neq in Hne. now rewrite Hne, Hnl, Hq.
Qed.

(** C4, as amended.  When the call passes the gate and the bound fields and
    the call's key/value list both have even length, the assembled sequence
    is the reserved pairs, then the bound fields, then the call's pairs; the
    keys of the reserved pairs are those of timestamp, level, caller, prefix
    and message that are present, in that order; deriving a logger appends
    the new fields after the old ones; the line written is the fields of
    the three parts in that order, one [textField] per pair, and a line feed;
    and a pair with a custom key contributes nothing when the display form of
    its key is empty, and otherwise exactly one field that starts with the
    key and the separator (after a space, or as a block after a line feed
    and two spaces). *)
Theorem assembled_order_and_fields (l : logger) (stack : list Frame) (lvl : Z)
    (msg : value) (kvs : list value) :
  w l = Sink -> level l <= lvl -> formatter l = TextFormatter ->
  Nat.even (List.length (keyvals l)) = true ->
  Nat.even (List.length kvs) = true ->
  log inPrintRanges d st l stack lvl msg kvs
  = Formatted
      (reservedFields d l stack lvl msg ++ keyvals l ++ kvs)%list
      (Some
         (fieldsOf inPrintRanges d st (timeFormat l)
            (Z.of_nat (List.length (reservedFields d l stack lvl msg ++ keyvals l ++ kvs)))
            0 (reservedFields d l stack lvl msg)
          ++ fieldsOf inPrintRanges d st (timeFormat l)
               (Z.of_nat (List.length (reservedFields d l stack lvl msg ++ keyvals l ++ kvs)))
               (Z.of_nat (List.length (reservedFields d l stack lvl msg))) (keyvals l)
          ++ fieldsOf inPrintRanges d st (timeFormat l)
               (Z.of_nat (List.length (reservedFields d l stack lvl msg ++ keyvals l ++ kvs)))
               (Z.of_nat (List.length (reservedFields d l stack lvl msg))
                + Z.of_nat (List.length (keyvals l))) kvs
          ++ str1 LF))
  /\ keysOf (reservedFields d l stack lvl msg)
     = map VString
         (select [timestamp l; negb (lvl =? noLevel d); caller l;
                  negb (String.eqb (prefix l) EmptyString); negb (isNil msg)]
                 [TimestampKey d; LevelKey d; CallerKey d; PrefixKey d; MessageKey d])
  /\ (forall bound, keyvals (With l bound) = (keyvals l ++ bound)%list)
  /\ (forall tf first more k v,
        isCustom d k = true ->
        (Sprint d k = EmptyString ->
         textField inPrintRanges d st tf first more k v = EmptyString)
        /\ (Sprint d k <> EmptyString ->
            exists body,
              textField inPrintRanges d st tf first more k v
              = writeSpace first ++ styledKey st (Sprint d k)
                ++ SeparatorStyle st separator ++ body
              \/ textField inPrintRanges d st tf first more k v
                 = String LF "  " ++ styledKey st (Sprint d k)
                   ++ (SeparatorStyle st separator ++ str1 LF) ++ body)).
Proof.
  intros Hw Hl Hf Hb Hk. split; [|split; [|split]].
  - rewrite log_accepted by assumption. rewrite assemble_eq. f_equal.
    rewrite textFormatter_even
      by (rewrite !even_app, reservedFields_even, Hb, Hk; reflexivity).
    rewrite fieldsOf_app by apply reservedFields_even.
    rewrite fieldsOf_app by assumption.
    now rewrite Z.add_0_l, !append_assoc.
  - apply reservedFields_keys.
  - reflexivity.
  - intros tf first more k v Hc. split.
    + intros He. rewrite (textField_default inPrintRanges d st tf first more k v Hc).
      now rewrite He.
    + now apply custom_field_shape.
Qed.

(** C5. [needsEscaping s] holds exactly when a rune of [s] is not printable
    or is the double quote; when it does not hold, [escapeStringForOutput]
    returns [s] itself whatever [escapeQuotes] is; in particular it is the
    identity on every printable ASCII string without a quote. *)
Theorem needsEscaping_iff_and_escape_identity (s : string) :
  (needsEscaping inPrintRanges s = true <->
     exists r, In r (runes s) /\ (IsPrint inPrintRanges r = false \/ r = 34))
  /\ (needsEscaping inPrintRanges s = false ->
      forall q, escapeStringForOutput inPrintRanges s q = s)
  /\ (printableASCII s = true ->
      forall q, escapeStringForOutput inPrintRanges s q = s).
Proof.
  split; [|split].
  - unfold needsEscaping. rewrite existsb_exists.
    split; intros [r [Hin Hr]]; exists r; split; auto.
    + apply orb_true_iff in Hr as [Hr|Hr].
      * left. now apply negb_true_iff.
      * right. now apply Z.eqb_eq.
    + apply orb_true_iff. destruct Hr as [Hr|Hr].
      * left. now apply negb_true_iff.
      * right. now apply Z.eqb_eq.
  - intros H q. unfold escapeStringForOutput. now rewrite H.
  - intros H q. unfold escapeStringForOutput.
    now rewrite (printableASCII_needsEscaping inPrintRanges s H).
Qed.

(** C6, as amended.  For every string the output of the escaping engine,
    read as runes, holds no control character; and for every valid UTF-8
    string without a backslash the output can be read back, and reading it
    back gives the original string. *)
Theorem escape_no_control_and_round_trip (s : string) (q : bool) :
  Forall (fun r => IsControl r = false)
    (runes (escapeStringForOutput inPrintRanges s q))
  /\ (ValidString s = true -> hasBackslash s = false ->
      unescape q (escapeStringForOutput inPrintRanges s q) = Some s).
Proof.
  split.
  - unfold escapeStringForOutput.
    destruct (needsEscaping inPrintRanges s) eqn:E; cbn [negb].
    + apply joined_runes, runes_valid.
    + unfold needsEscaping in E. apply Forall_forall. intros r Hin.
      apply (IsPrint_not_control inPrintRanges).
      destruct (IsPrint inPrintRanges r) eqn:Hp; [reflexivity|].
      assert (existsb (fun b => negb (IsPrint inPrintRanges b) || (b =? 34)) (runes s)
              = true).
      { apply existsb_exists. exists r. split; [assumption|]. now rewrite Hp. }
      congruence.
  - intros Hs Hbs. rewrite escape_joined by assumption. unfold unescape.
    rewrite unescape_joined.
    + f_equal. now apply String.eqb_eq.
    + apply runes_valid.
    + intros Hin. unfold hasBackslash in Hbs.
      assert (existsb (Z.eqb 92) (runes s) = true); [|congruence].
      apply existsb_exists. exists 92. split; [assumption|reflexivity].
Qed.

(** C7, as amended.  [fillLoc] inspects at most 50 frames, those
    [runtime.Callers] captures; it returns the first of them whose function
    is not a helper, the last of them when all before it are helpers, and
    the zero frame when none was captured.  So when the frames above the
    logger's own are fewer than 50 helper frames followed by a frame that is
    no helper, that frame's file and line are reported.  [Helper] marks the
    function that called it, keeps the earlier marks, and marking again
    changes nothing. *)
Theorem caller_resolution (l : logger) (stack : list Frame) (skip : Z) :
  (List.length (Callers stack (skip + 2) maxStackLen) <= 50)%nat
  /\ (forall pre f rest,
        Callers stack (skip + 2) maxStackLen = (pre ++ f :: rest)%list ->
        Forall (fun x => isHelper (helpers l) (Function x) = true) pre ->
        isHelper (helpers l) (Function f) = false ->
        fillLoc l stack skip = (File f, Line f, Function f))
  /\ (forall pre f,
        Callers stack (skip + 2) maxStackLen = (pre ++ [f])%list ->
        Forall (fun x => isHelper (helpers l) (Function x) = true) pre ->
        fillLoc l stack skip = (File f, Line f, Function f))
  /\ (Callers stack (skip + 2) maxStackLen = [] ->
      fillLoc l stack skip = (EmptyString, 0, EmptyString))
  /\ (forall inner wrappers f rest,
        stack = (inner ++ wrappers ++ f :: rest)%list ->
        Z.to_nat (skip + 2) = List.length inner ->
        (List.length wrappers < 50)%nat ->
        Forall (fun x => isHelper (helpers l) (Function x) = true) wrappers ->
        isHelper (helpers l) (Function f) = false ->
        fillLoc l stack skip = (File f, Line f, Function f))
  /\ (forall stk,
        isHelper (helpers (Helper l stk)) (Function (nth 3 stk zeroFrame)) = true
        /\ (forall fn, isHelper (helpers l) fn = true ->
                       isHelper (helpers (Helper l stk)) fn = true)
        /\ Helper (Helper l stk) stk = Helper l stk).
Proof.
  split; [apply Callers_length|].
  split; [intros pre f rest E Hpre Hf; unfold fillLoc; cbv zeta;
          now rewrite E, walkFrames_first_non_helper|].
  split; [intros pre f E Hpre; unfold fillLoc; cbv zeta;
          now rewrite E, walkFrames_last|].
  split; [intros E; unfold fillLoc; cbv zeta; now rewrite E|].
  split.
  - intros inner wrappers f rest -> Hskip Hlen Hw Hf.
    unfold fillLoc. cbv zeta. rewrite Callers_skip by assumption.
    rewrite firstn_app.
    rewrite (firstn_all2 wrappers) by (unfold maxStackLen; lia).
    destruct (maxStackLen - List.length wrappers)%nat as [|n] eqn:E;
      [unfold maxStackLen in E; lia|].
    cbn [firstn]. now rewrite walkFrames_first_non_helper.
  - intros stk. unfold Helper, helper, location.
    replace (Z.to_nat (1 + 1 + 1)) with 3%nat by reflexivity.
    cbn [setHelpers helpers]. split; [|split].
    + apply isHelper_LoadOrStore.
    + intros fn. apply isHelper_LoadOrStore_mono.
    + unfold setHelpers. cbn. now rewrite LoadOrStore_idempotent.
Qed.


(** C9. The logger [New] builds (threshold Info, no timestamp, no caller, no
    prefix, no bound fields, text formatter), with styling disabled and the
    Info level rendered as INFO: [Info] with the message info and the pairs
    key1, val1, key2, val2 writes exactly the line
    INFO info key1=val1 key2=val2 and a line feed. *)
Theorem info_scenario_output (now : unit -> Z) (layout : string) (stack : list Frame) :
  keysDistinct d -> levelsOrdered d -> stylesDisabled st ->
  levelStyle st (InfoLevel d) = "INFO" ->
  isCustom d (VString "key1") = true -> isCustom d (VString "key2") = true ->
  Info inPrintRanges d st (New d now layout) stack (VString "info")
    [VString "key1"; VString "val1"; VString "key2"; VString "val2"]
  = Formatted
      [VString (LevelKey d); VLevel (InfoLevel d); VString (MessageKey d); VString "info";
       VString "key1"; VString "val1"; VString "key2"; VString "val2"]
      (Some ("INFO info key1=val1 key2=val2" ++ str1 LF)).
Proof.
  intros Hd Hord Hs Hlvl Hk1 Hk2. unfold Info.
  rewrite log_accepted by (cbn; try reflexivity; lia).
  unfold assemble. cbn [New timestamp caller prefix keyvals timeFormat String.eqb negb app].
  replace (InfoLevel d =? noLevel d) with false
    by (symmetry; unfold levelsOrdered in Hord; lia).
  cbn [negb app Sprint]. f_equal.
  unfold textFormatter. cbn [textFields List.length].
  rewrite textField_level, textField_message by assumption.
  rewrite !textField_bare by (try assumption; try discriminate; reflexivity).
  rewrite Hlvl. destruct Hs as (_ & _ & _ & Hm & _). rewrite Hm.
  reflexivity.
Qed.

(** C10. A pair whose key is a reserved key and whose value has not the
    dynamic type the renderer expects for that key (a time for the timestamp
    key, a level for the level key, a string for the caller and prefix keys;
    for the message key, a nil value) makes the renderer append nothing: it
    takes neither the special form nor the generic key=value path. *)
Theorem reserved_key_wrong_type_renders_nothing (tf : string) (first more : bool)
    (k v : value) :
  keysDistinct d ->
  (k = VString (TimestampKey d) /\ (forall t, v <> VTime t))
  \/ (k = VString (LevelKey d) /\ (forall lv, v <> VLevel lv))
  \/ (k = VString (CallerKey d) /\ (forall s, v <> VString s))
  \/ (k = VString (PrefixKey d) /\ (forall s, v <> VString s))
  \/ (k = VString (MessageKey d) /\ v = VNil) ->
  textField inPrintRanges d st tf first more k v = EmptyString.
Proof.
  intros Hd H. apply keysDistinct_neq in Hd.
  assert (Hne : forall a b : string, a <> b -> String.eqb a b = false)
    by (intros a b; apply String.eqb_neq).
  unfold textField.
  destruct H as [[-> Hv]|[[-> Hv]|[[-> Hv]|[[-> Hv]|[-> ->]]]]];
    rewrite !isKey_string, ?String.eqb_refl.
  - destruct v; try reflexivity. now destruct (Hv t).
  - rewrite (Hne (LevelKey d) (TimestampKey d)) by intuition congruence.
    destruct v; try reflexivity. now destruct (Hv l).
  - rewrite (Hne (CallerKey d) (TimestampKey d)) by intuition congruence.
    rewrite (Hne (CallerKey d) (LevelKey d)) by intuition congruence.
    destruct v; try reflexivity. now destruct (Hv s).
  - rewrite (Hne (PrefixKey d) (TimestampKey d)) by intuition congruence.
    rewrite (Hne (PrefixKey d) (LevelKey d)) by intuition congruence.
    rewrite (Hne (PrefixKey d) (CallerKey d)) by intuition congruence.
    destruct v; try reflexivity. now destruct (Hv s).
  - rewrite (Hne (MessageKey d) (TimestampKey d)) by intuition congruence.
    rewrite (Hne (MessageKey d) (LevelKey d)) by intuition congruence.
    rewrite (Hne (MessageKey d) (CallerKey d)) by intuition congruence.
    rewrite (Hne (MessageKey d) (PrefixKey d)) by intuition congruence.
    reflexivity.
Qed.

End Claims.

(** ** The claims on concrete inputs *)

(** C1: what the code does on a call with one key and no value.  [log]
    computes the padded slice, but the sequence it has already assembled
    ends with the unpaired key, and the text formatter panics on it (index
    out of range) instead of rendering the key with the sentinel. *)
Theorem odd_keyvals_reach_formatter_unpadded :
  paddedKeyvals [VString "key1"] = [VString "key1"; VString "MISSING_VALUE"]
  /\ Info exampleTables exampleDecls plainStyles exampleLogger exampleStack
       (VString "info") [VString "key1"]
     = Formatted
         [VString "lvl"; VLevel 1; VString "msg"; VString "info"; VString "key1"]
         None.
Proof.
  split; reflexivity.
Qed.



Lemma custom_pair_rendering_witness :
  isCustom exampleDecls (VString "trace") = true
  /\ textField exampleTables exampleDecls plainStyles EmptyString false true
       (VString "trace") (VString ("line1" ++ str1 LF ++ "line2"))
     = String LF "  trace=" ++ str1 LF ++ "  │ line1" ++ str1 LF
       ++ "  │ line2" ++ str1 LF.
Proof.
  split; [reflexivity|].
  destruct (custom_pair_rendering exampleTables exampleDecls plainStyles EmptyString
              false true (VString "trace") (VString ("line1" ++ str1 LF ++ "line2"))
              eq_refl) as [_ H].
  destruct (H ltac:(discriminate)) as (_ & H2 & _).
  rewrite (H2 eq_refl). reflexivity.
Defined.

(** C3 as stated fails: for the last pair of an entry the block ends with
    the last value line, with no line feed of its own behind it. *)
Lemma multiline_block_last_line_without_line_feed :
  isCustom exampleDecls (VString "trace") = true
  /\ textField exampleTables exampleDecls plainStyles EmptyString false false
       (VString "trace") (VString ("line1" ++ str1 LF ++ "line2"))
     = String LF "  trace=" ++ str1 LF ++ "  │ line1" ++ str1 LF ++ "  │ line2"
  /\ String.index 0 ("  │ line2" ++ str1 LF)
       (textField exampleTables exampleDecls plainStyles EmptyString false false
          (VString "trace") (VString ("line1" ++ str1 LF ++ "line2")))
     = None.
Proof.
  split; [reflexivity|]. split; reflexivity.
Qed.

Lemma assembled_order_and_fields_witness :
  w (With exampleLogger [VString "service"; VString "api"]) = Sink
  /\ level (With exampleLogger [VString "service"; VString "api"]) <= 1
  /\ Info exampleTables exampleDecls plainStyles
       (With exampleLogger [VString "service"; VString "api"]) exampleStack
       (VString "info") [VString "key1"; VString "val1"]
     = Formatted
         [VString "lvl"; VLevel 1; VString "msg"; VString "info";
          VString "service"; VString "api"; VString "key1"; VString "val1"]
         (Some ("INFO info service=api key1=val1" ++ str1 LF)).
Proof.
  split; [reflexivity|]. split; [cbn; lia|].
  unfold Info.
  rewrite (proj1 (assembled_order_and_fields exampleTables exampleDecls plainStyles
                    (With exampleLogger [VString "service"; VString "api"])
                    exampleStack (InfoLevel exampleDecls) (VString "info")
                    [VString "key1"; VString "val1"]
                    eq_refl ltac:(cbn; lia) eq_refl eq_refl eq_refl)).
  reflexivity.
Defined.

(** C4 as stated fails: a custom pair with an empty key is part of the
    assembled sequence and no field is rendered for it. *)
Lemma empty_key_pair_renders_no_field :
  isCustom exampleDecls (VString EmptyString) = true
  /\ Info exampleTables exampleDecls plainStyles exampleLogger exampleStack
       (VString "m") [VString EmptyString; VString "v"]
     = Formatted
         [VString "lvl"; VLevel 1; VString "msg"; VString "m";
          VString EmptyString; VString "v"]
         (Some ("INFO m" ++ str1 LF)).
Proof.
  split; reflexivity.
Qed.

Lemma escape_identity_witness :
  printableASCII "key1=val1 (ok)" = true
  /\ escapeStringForOutput exampleTables "key1=val1 (ok)" true = "key1=val1 (ok)".
Proof.
  split; [reflexivity|].
  apply (proj2 (proj2 (needsEscaping_iff_and_escape_identity exampleTables
                          "key1=val1 (ok)"))).
  reflexivity.
Defined.

Lemma escape_round_trip_witness :
  ValidString ("a│b" ++ String LF (String (zbyte 1) ("say " ++ String DQ "hi"))) = true
  /\ hasBackslash ("a│b" ++ String LF (String (zbyte 1) ("say " ++ String DQ "hi"))) = false
  /\ unescape true
       (escapeStringForOutput exampleTables
          ("a│b" ++ String LF (String (zbyte 1) ("say " ++ String DQ "hi"))) true)
     = Some ("a│b" ++ String LF (String (zbyte 1) ("say " ++ String DQ "hi"))).
Proof.
  split; [reflexivity|]. split; [reflexivity|].
  apply (proj2 (escape_no_control_and_round_trip exampleTables
                  ("a│b" ++ String LF (String (zbyte 1) ("say " ++ String DQ "hi")))
                  true)); reflexivity.
Defined.

(** Whatever the tables are: a backslash in the input is copied as it is, so
    reading the output back takes it for the start of an escape; and a byte
    that is no UTF-8 is replaced by U+FFFD. *)
Lemma round_trip_fails (tables : Z -> bool) :
  unescape false (escapeStringForOutput tables ("\n" ++ str1 (zbyte 9)) false)
  = Some (String LF (str1 (zbyte 9)))
  /\ unescape false
       (escapeStringForOutput tables (String (zbyte 255) (str1 LF)) false)
     = Some (encodeRune RuneError ++ str1 LF).
Proof.
  split; [reflexivity|].
  unfold escapeStringForOutput, needsEscaping.
  replace (runes (String (zbyte 255) (str1 LF))) with [RuneError; 10] by reflexivity.
  cbn [existsb map joinAll]. unfold escapeRune, IsPrint. cbn -[unescape hexDigits encodeRune].
  destruct (tables RuneError); reflexivity.
Qed.

(** C6 as stated fails: the string backslash, n, tab holds a control
    character, and reading its escaped form back gives line feed, tab; the
    string 0xFF, line feed is read back as U+FFFD, line feed. *)
Lemma escape_round_trip_counterexample :
  existsb IsControl (runes ("\n" ++ str1 (zbyte 9))) = true
  /\ unescape false
       (escapeStringForOutput exampleTables ("\n" ++ str1 (zbyte 9)) false)
     = Some (String LF (str1 (zbyte 9)))
  /\ unescape false
       (escapeStringForOutput exampleTables ("\n" ++ str1 (zbyte 9)) false)
     <> Some ("\n" ++ str1 (zbyte 9))
  /\ existsb IsControl (runes (String (zbyte 255) (str1 LF))) = true
  /\ unescape false
       (escapeStringForOutput exampleTables (String (zbyte 255) (str1 LF)) false)
     <> Some (String (zbyte 255) (str1 LF)).
Proof.
  destruct (round_trip_fails exampleTables) as [H1 H2].
  split; [reflexivity|]. split; [exact H1|]. split; [rewrite H1; discriminate|].
  split; [reflexivity|]. rewrite H2. discriminate.
Qed.

Lemma caller_resolution_witness :
  isHelper (helpers testLogger) "log.TestLogHelper.func1" = true
  /\ isHelper (helpers testLogger) "log.TestLogHelper" = false
  /\ fillLoc testLogger infoCallStack 2
     = ("/src/log/log_test.go", 106, "log.TestLogHelper").
Proof.
  split; [reflexivity|]. split; [reflexivity|].
  apply (proj1 (proj2 (proj2 (proj2 (proj2
           (caller_resolution testLogger infoCallStack 2)))))
           (firstn 4 infoCallStack)
           [ {| Function := "log.TestLogHelper.func1"; File := "/src/log/log_test.go";
                Line := 103 |} ]
           {| Function := "log.TestLogHelper"; File := "/src/log/log_test.go";
              Line := 106 |}
           (skipn 6 infoCallStack)).
  - reflexivity.
  - reflexivity.
  - cbn. lia.
  - repeat constructor.
  - reflexivity.
Defined.

(** C7 as stated fails: under fifty helper frames the frame reported is the
    last captured one, a frame of the helper, not the caller's. *)
Lemma fifty_helper_layers_hide_the_caller :
  forallb (fun x => isHelper (helpers deepLogger) (Function x)) (repeat wrapperFrame 50)
  = true
  /\ isHelper (helpers deepLogger) "main.main" = false
  /\ nth 54 deepStack zeroFrame
     = {| Function := "main.main"; File := "/src/app/main.go"; Line := 12 |}
  /\ fillLoc deepLogger deepStack 2 = ("/src/app/events.go", 20, "app.logEvent").
Proof.
  repeat split; reflexivity.
Qed.

Lemma info_scenario_output_witness :
  keysDistinct exampleDecls /\ levelsOrdered exampleDecls /\ stylesDisabled plainStyles
  /\ Info exampleTables exampleDecls plainStyles exampleLogger exampleStack
       (VString "info") [VString "key1"; VString "val1"; VString "key2"; VString "val2"]
     = Formatted
         [VString "lvl"; VLevel 1; VString "msg"; VString "info";
          VString "key1"; VString "val1"; VString "key2"; VString "val2"]
         (Some ("INFO info key1=val1 key2=val2" ++ str1 LF)).
Proof.
  split; [exact exampleDecls_keysDistinct|].
  split; [exact exampleDecls_levelsOrdered|].
  split; [exact plainStyles_disabled|].
  exact (info_scenario_output exampleTables exampleDecls plainStyles (fun _ => 0)
           EmptyString exampleStack exampleDecls_keysDistinct
           exampleDecls_levelsOrdered plainStyles_disabled eq_refl eq_refl eq_refl).
Defined.

Lemma reserved_key_wrong_type_witness :
  keysDistinct exampleDecls
  /\ textField exampleTables exampleDecls plainStyles EmptyString false true
       (VString "ts") (VString "2026-01-01") = EmptyString.
Proof.
  split; [exact exampleDecls_keysDistinct|].
  apply (reserved_key_wrong_type_renders_nothing exampleTables exampleDecls plainStyles
           EmptyString false true (VString "ts") (VString "2026-01-01")
           exampleDecls_keysDistinct).
  left. split; [reflexivity|]. intros t. discriminate.
Defined.

(** * Further properties of the code *)

(** ** Quoting and escaping *)

Lemma decoderune_high (c : ascii) (t : string) :
  0x80 <= byteZ c -> 0x80 <= fst (decoderune c t).
Proof.
  intros Hc. unfold decoderune. cbv zeta.
  replace (byteZ c <? 128) with false by (symmetry; lia).
  assert (He : 0x80 <= fst (RuneError, 1%nat)) by (cbn; unfold RuneError; lia).
  destruct ((192 <=? byteZ c) && (byteZ c <? 224)).
  { destruct t as [|c1 t]; [exact He|].
    destruct (isCont c1); [|exact He].
    destruct (127 <? _) eqn:E1; [|exact He]. cbn [fst]. lia. }
  destruct ((224 <=? byteZ c) && (byteZ c <? 240)).
  { destruct t as [|c1 [|c2 t]]; try exact He.
    destruct (isCont c1 && isCont c2); [|exact He].
    destruct ((2047 <? _) && _) eqn:E1; [|exact He].
    cbn [fst]. apply andb_true_iff in E1 as [E1 _]. lia. }
  destruct ((240 <=? byteZ c) && (byteZ c <? 248)).
  { destruct t as [|c1 [|c2 [|c3 t]]]; try exact He.
    destruct (isCont c1 && isCont c2 && isCont c3); [|exact He].
    destruct ((65535 <? _) && _) eqn:E1; [|exact He].
    cbn [fst]. apply andb_true_iff in E1 as [E1 _]. lia. }
  exact He.
Qed.

Lemma needsQuoting_normalBytes (s : string) :
  needsQuoting s = negb (normalBytes s).
Proof.
  induction s as [|c t IH]; [reflexivity|].
  destruct (Z.ltb_spec (byteZ c) 0x80) as [Hlo|Hhi].
  - unfold needsQuoting in *. rewrite runes_ascii by assumption.
    cbn [existsb normalBytes]. rewrite IH. unfold isNormal.
    now rewrite !negb_andb.
  - unfold needsQuoting. simp runes. cbn [existsb normalBytes].
    pose proof (decoderune_high c t Hhi) as Hr.
    unfold isNormal.
    replace (fst (decoderune c t) <=? 126) with false by (symmetry; lia).
    replace (byteZ c <=? 126) with false by (symmetry; lia).
    now rewrite !andb_false_r.
Qed.

Lemma normalBytes_printableASCII (s : string) :
  normalBytes s = true -> printableASCII s = true.
Proof.
  induction s as [|c t IH]; [reflexivity|]. cbn [normalBytes printableASCII].
  intros H. apply andb_true_iff in H as [H Ht]. rewrite (IH Ht).
  rewrite andb_true_r. lia.
Qed.

Lemma normalBytes_no_LF (s : string) :
  normalBytes s = true -> containsByte s LF = false.
Proof.
  unfold containsByte. induction s as [|c t IH]; [reflexivity|].
  cbn [normalBytes IndexByte]. intros H. apply andb_true_iff in H as [H Ht].
  rewrite ascii_eqb_byteZ, byteZ_LF.
  replace (byteZ c =? 10) with false by (symmetry; lia).
  specialize (IH Ht). now destruct (IndexByte t LF).
Qed.

Section Quoting.

Variable inPrintRanges : Z -> bool.

(** X1. [needsQuoting s] is false exactly when every byte of [s] is one of
    '-'..'~': a byte from 0x80 on never decodes to a normal rune.  Such a
    string needs no escaping and holds no line feed, and
    [escapeStringForOutput] returns it unchanged: the value the renderer
    writes bare is written byte for byte. *)
Theorem needsQuoting_iff_byte_outside_normal_range (s : string) :
  needsQuoting s = negb (normalBytes s)
  /\ (needsQuoting s = false ->
      needsEscaping inPrintRanges s = false
      /\ containsByte s LF = false
      /\ forall q, escapeStringForOutput inPrintRanges s q = s).
Proof.
  split; [apply needsQuoting_normalBytes|].
  rewrite needsQuoting_normalBytes, negb_false_iff. intros H.
  pose proof (printableASCII_needsEscaping inPrintRanges s
                (normalBytes_printableASCII s H)) as He.
  split; [exact He|]. split; [now apply normalBytes_no_LF|].
  intros q. unfold escapeStringForOutput. now rewrite He.
Qed.

End Quoting.

(** ** The output of the escaping engine, decoded again *)

Lemma append_empty_r (s : string) : s ++ EmptyString = s.
Proof.
  induction s as [|c s IH]; cbn; [reflexivity|]. now rewrite IH.
Qed.

Section Reencode.

Variable inPrintRanges : Z -> bool.

Lemma plain_pieces (p rest : string) :
  plainASCII p = true ->
  exists rs,
    runes (p ++ rest) = (rs ++ runes rest)%list
    /\ Forall (fun r => IsPrint inPrintRanges r = true) rs
    /\ joinAll (map encodeRune rs) = p.
Proof.
  induction p as [|c p IH]; intros H.
  - exists []. repeat split; constructor.
  - cbn [plainASCII] in H. apply andb_true_iff in H as [H Hp].
    destruct (IH Hp) as (rs & Hrs & Hall & Henc).
    exists (byteZ c :: rs). cbn [append]. rewrite runes_ascii by lia.
    rewrite Hrs. split; [reflexivity|]. split.
    + constructor; [|assumption]. unfold IsPrint.
      replace ((0 <=? byteZ c) && (byteZ c <=? 255)) with true by (symmetry; lia).
      apply orb_true_iff. left. lia.
    + cbn [map joinAll]. rewrite Henc, encodeRune_1 by lia.
      now rewrite zbyte_byteZ.
Qed.

Lemma escapeRune_pieces (q : bool) (r : Z) (rest : string) :
  ValidRune r = true ->
  exists rs,
    runes (escapeRune inPrintRanges q r ++ rest) = (rs ++ runes rest)%list
    /\ Forall (fun x => IsPrint inPrintRanges x = true) rs
    /\ joinAll (map encodeRune rs) = escapeRune inPrintRanges q r.
Proof.
  intros Hv. unfold escapeRune.
  destruct (q && (r =? 34)); [now apply plain_pieces|].
  destruct (IsPrint inPrintRanges r) eqn:Hp.
  { exists [r]. rewrite runes_encodeRune by assumption. split; [reflexivity|].
    split; [now repeat constructor|]. cbn. apply append_empty_r. }
  repeat match goal with
  | |- context [if ?b then _ else _] =>
      destruct b; [apply plain_pieces;
                   rewrite ?plainASCII_app, ?plainASCII_hexDigits; try reflexivity|]
  end.
  - change (plainASCII "\x") with true. cbn [plainASCII str1 andb].
    pose proof (hexAt_range (Z.shiftr (r mod 256) 4)).
    pose proof (hexAt_range (Z.land (r mod 256) 15)).
    rewrite !andb_true_r. apply andb_true_iff. split; lia.
  - apply plain_pieces.
    now rewrite ?plainASCII_app, ?plainASCII_hexDigits.
Qed.

Lemma joined_pieces (q : bool) (rs : list Z) :
  Forall (fun r => ValidRune r = true) rs ->
  Forall (fun x => IsPrint inPrintRanges x = true)
    (runes (joinAll (map (escapeRune inPrintRanges q) rs)))
  /\ joinAll (map encodeRune (runes (joinAll (map (escapeRune inPrintRanges q) rs))))
     = joinAll (map (escapeRune inPrintRanges q) rs).
Proof.
  induction 1 as [|r rs Hr _ [IH1 IH2]]; cbn [map joinAll].
  - simp runes. split; [constructor|reflexivity].
  - destruct (escapeRune_pieces q r (joinAll (map (escapeRune inPrintRanges q) rs)) Hr)
      as (p & Hp & Hall & Henc).
    rewrite Hp. split.
    + apply Forall_app. split; assumption.
    + now rewrite map_app, joinAll_app, Henc, IH2.
Qed.

Lemma needsEscaping_false_printable (s : string) :
  needsEscaping inPrintRanges s = false ->
  Forall (fun r => IsPrint inPrintRanges r = true /\ r <> 34) (runes s).
Proof.
  unfold needsEscaping. intros E. apply Forall_forall. intros r Hin.
  destruct (negb (IsPrint inPrintRanges r) || (r =? 34)) eqn:Hr.
  - assert (existsb (fun b => negb (IsPrint inPrintRanges b) || (b =? 34)) (runes s)
            = true) by (apply existsb_exists; now exists r).
    congruence.
  - apply orb_false_iff in Hr as [Hp Hq]. apply negb_false_iff in Hp.
    split; [assumption|lia].
Qed.

Lemma escape_printable (s : string) (q : bool) :
  Forall (fun r => IsPrint inPrintRanges r = true)
    (runes (escapeStringForOutput inPrintRanges s q)).
Proof.
  unfold escapeStringForOutput.
  destruct (needsEscaping inPrintRanges s) eqn:E; cbn [negb].
  - apply joined_pieces, runes_valid.
  - eapply Forall_impl; [|apply (needsEscaping_false_printable s E)].
    now intros r [Hp _].
Qed.

(** X2. Every rune of the output of [escapeStringForOutput] is printable,
    whatever the input and [escapeQuotes] are; and with [escapeQuotes] off,
    escaping the output once more changes nothing. *)
Theorem escape_output_printable_and_stable (s : string) (q : bool) :
  Forall (fun r => IsPrint inPrintRanges r = true)
    (runes (escapeStringForOutput inPrintRanges s q))
  /\ escapeStringForOutput inPrintRanges (escapeStringForOutput inPrintRanges s false)
       false
     = escapeStringForOutput inPrintRanges s false.
Proof.
  split; [apply escape_printable|].
  pose proof (escape_printable s false) as Hall.
  unfold escapeStringForOutput at 1.
  destruct (needsEscaping inPrintRanges (escapeStringForOutput inPrintRanges s false))
    eqn:E2; [|reflexivity].
  cbn [negb].
  destruct (needsEscaping inPrintRanges s) eqn:E1.
  - unfold escapeStringForOutput in *. rewrite E1 in *. cbn [negb] in *.
    destruct (joined_pieces false (runes s) (runes_valid s)) as [_ Henc].
    rewrite <- Henc at 2. f_equal. apply map_ext_in. intros r Hin.
    rewrite Forall_forall in Hall. unfold escapeRune. cbn [andb].
    now rewrite (Hall r Hin).
  - unfold escapeStringForOutput in E2. rewrite E1 in E2. cbn [negb] in E2.
    congruence.
Qed.

(** X3. When [escapeStringForOutput] rewrites its input (the input needs
    escaping), the output is valid UTF-8 even if the input is not; and a
    valid input always gives a valid output. *)
Theorem escape_output_valid_utf8 (s : string) (q : bool) :
  (needsEscaping inPrintRanges s = true ->
   ValidString (escapeStringForOutput inPrintRanges s q) = true)
  /\ (ValidString s = true ->
      ValidString (escapeStringForOutput inPrintRanges s q) = true).
Proof.
  assert (H : needsEscaping inPrintRanges s = true ->
              ValidString (escapeStringForOutput inPrintRanges s q) = true).
  { intros E. unfold escapeStringForOutput. rewrite E. cbn [negb].
    unfold ValidString. apply String.eqb_eq.
    apply (joined_pieces q (runes s) (runes_valid s)). }
  split; [exact H|]. intros Hs.
  destruct (needsEscaping inPrintRanges s) eqn:E; [now apply H|].
  unfold escapeStringForOutput. now rewrite E.
Qed.

Lemma runes_joined_app (rs : list Z) (b : string) :
  Forall (fun r => ValidRune r = true) rs ->
  runes (joinAll (map encodeRune rs) ++ b) = (rs ++ runes b)%list.
Proof.
  induction 1 as [|r rs Hr _ IH]; [reflexivity|].
  cbn [map joinAll app]. rewrite append_assoc, runes_encodeRune by assumption.
  now rewrite IH.
Qed.

Lemma runes_app_valid (a b : string) :
  ValidString a = true -> runes (a ++ b) = (runes a ++ runes b)%list.
Proof.
  intros Ha. apply String.eqb_eq in Ha. rewrite <- Ha at 1.
  apply runes_joined_app, runes_valid.
Qed.

Lemma ValidString_app (a b : string) :
  ValidString a = true -> ValidString b = true -> ValidString (a ++ b) = true.
Proof.
  intros Ha Hb. unfold ValidString. rewrite runes_app_valid by assumption.
  rewrite map_app, joinAll_app. apply String.eqb_eq.
  apply String.eqb_eq in Ha, Hb. now rewrite Ha, Hb.
Qed.

(** X4. On valid UTF-8 strings escaping goes piece by piece: the escaped
    form of a concatenation is the concatenation of the escaped forms, and
    the concatenation needs escaping exactly when one of the pieces
    does. *)
Theorem escape_of_valid_concatenation (a b : string) (q : bool) :
  ValidString a = true -> ValidString b = true ->
  escapeStringForOutput inPrintRanges (a ++ b) q
  = escapeStringForOutput inPrintRanges a q ++ escapeStringForOutput inPrintRanges b q
  /\ needsEscaping inPrintRanges (a ++ b)
     = needsEscaping inPrintRanges a || needsEscaping inPrintRanges b.
Proof.
  intros Ha Hb. split.
  - rewrite !escape_joined by (assumption || now apply ValidString_app).
    now rewrite runes_app_valid, map_app, joinAll_app.
  - unfold needsEscaping. now rewrite runes_app_valid, existsb_app.
Qed.

Lemma escape_read_back (s : string) (q : bool) :
  ValidString s = true -> hasBackslash s = false ->
  unescape q (escapeStringForOutput inPrintRanges s q) = Some s.
Proof.
  intros Hs Hbs. rewrite escape_joined by assumption. unfold unescape.
  rewrite unescape_joined.
  - f_equal. now apply String.eqb_eq.
  - apply runes_valid.
  - intros Hin. unfold hasBackslash in Hbs.
    assert (existsb (Z.eqb 92) (runes s) = true); [|congruence].
    apply existsb_exists. exists 92. split; [assumption|reflexivity].
Qed.

(** X5. Two valid UTF-8 strings without backslash that have the same
    escaped form are the same string: on such values the escaped form
    determines the value.  (A backslash breaks this: the two bytes
    backslash, n and the line feed have the same escaped form.) *)
Theorem escape_injective_without_backslash (a b : string) (q : bool) :
  ValidString a = true -> ValidString b = true ->
  hasBackslash a = false -> hasBackslash b = false ->
  escapeStringForOutput inPrintRanges a q = escapeStringForOutput inPrintRanges b q ->
  a = b.
Proof.
  intros Ha Hb Hna Hnb E.
  pose proof (escape_read_back a q Ha Hna) as Ra.
  pose proof (escape_read_back b q Hb Hnb) as Rb.
  rewrite E, Rb in Ra. now injection Ra.
Qed.

End Reencode.

(** ** Control bytes and line feeds in what is rendered *)

Lemma containsByte_cons (a : ascii) (t : string) (c : ascii) :
  containsByte (String a t) c = Ascii.eqb a c || containsByte t c.
Proof.
  unfold containsByte. cbn [IndexByte].
  destruct (Ascii.eqb a c); [reflexivity|]. now destruct (IndexByte t c).
Qed.

Lemma containsByte_app (a b : string) (c : ascii) :
  containsByte (a ++ b) c = containsByte a c || containsByte b c.
Proof.
  induction a as [|x a IH]; [reflexivity|].
  cbn [append]. rewrite !containsByte_cons, IH. apply orb_assoc.
Qed.

Lemma containsByte_cont (c1 : ascii) (t : string) (c : ascii) :
  isCont c1 = true -> byteZ c < 0x80 ->
  containsByte (String c1 t) c = containsByte t c.
Proof.
  unfold isCont. intros H1 Hc. rewrite containsByte_cons, ascii_eqb_byteZ.
  replace (byteZ c1 =? byteZ c) with false by (symmetry; lia). reflexivity.
Qed.

Lemma decoderune_skips_continuations (c0 : ascii) (t : string) (c : ascii) :
  byteZ c < 0x80 ->
  containsByte (dropBytes (snd (decoderune c0 t) - 1) t) c = containsByte t c.
Proof.
  intros Hc. unfold decoderune. cbv zeta.
  destruct (byteZ c0 <? 128); [reflexivity|].
  destruct ((192 <=? byteZ c0) && (byteZ c0 <? 224)).
  { destruct t as [|c1 t]; [reflexivity|].
    destruct (isCont c1) eqn:E1; [|reflexivity].
    destruct (127 <? _); [|reflexivity].
    cbn [snd Nat.sub dropBytes]. now rewrite containsByte_cont. }
  destruct ((224 <=? byteZ c0) && (byteZ c0 <? 240)).
  { destruct t as [|c1 [|c2 t]]; try reflexivity.
    destruct (isCont c1) eqn:E1; [|reflexivity].
    destruct (isCont c2) eqn:E2; [|reflexivity]. cbn [andb].
    destruct ((2047 <? _) && _); [|reflexivity].
    cbn [snd Nat.sub dropBytes]. now rewrite !containsByte_cont. }
  destruct ((240 <=? byteZ c0) && (byteZ c0 <? 248)).
  { destruct t as [|c1 [|c2 [|c3 t]]]; try reflexivity.
    destruct (isCont c1) eqn:E1; [|reflexivity].
    destruct (isCont c2) eqn:E2; [|reflexivity].
    destruct (isCont c3) eqn:E3; [|reflexivity]. cbn [andb].
    destruct ((65535 <? _) && _); [|reflexivity].
    cbn [snd Nat.sub dropBytes]. now rewrite !containsByte_cont. }
  reflexivity.
Qed.

Lemma ascii_byte_in_runes (s : string) (c : ascii) :
  byteZ c < 0x80 -> containsByte s c = true -> In (byteZ c) (runes s).
Proof.
  intros Hc. funelim (runes s); intros Hin.
  - discriminate Hin.
  - rewrite containsByte_cons in Hin. apply orb_true_iff in Hin as [Hin|Hin].
    + apply Ascii.eqb_eq in Hin. rewrite Hin. left.
      unfold decoderune.
      match goal with
      | |- context [?b <? 128] => replace (b <? 128) with true by (symmetry; lia)
      end.
      reflexivity.
    + right.
      match goal with
      | IH : forall _ : ascii, _ |- _ => apply IH; [assumption|]
      end.
      now rewrite decoderune_skips_continuations.
Qed.

Section OneLine.

Variable inPrintRanges : Z -> bool.
Variable d : Decls.
Variable st : Styles.

Lemma escape_no_LF (s : string) (q : bool) :
  containsByte (escapeStringForOutput inPrintRanges s q) LF = false.
Proof.
  destruct (containsByte _ LF) eqn:E; [|reflexivity].
  apply ascii_byte_in_runes in E; [|rewrite byteZ_LF; lia].
  pose proof (escape_printable inPrintRanges s q) as Hall.
  rewrite Forall_forall in Hall. specialize (Hall _ E).
  rewrite byteZ_LF in Hall. discriminate Hall.
Qed.

(** X6. The output of [escapeStringForOutput] holds none of the ASCII
    control bytes 0x00..0x1F and 0x7F, whatever the input is: in
    particular no line feed, carriage return, tab or escape byte. *)
Theorem escape_output_has_no_control_byte (s : string) (q : bool) (c : ascii) :
  byteZ c < 0x20 \/ byteZ c = 0x7F ->
  containsByte (escapeStringForOutput inPrintRanges s q) c = false.
Proof.
  intros Hc. destruct (containsByte _ c) eqn:E; [|reflexivity].
  apply ascii_byte_in_runes in E; [|lia].
  pose proof (escape_printable inPrintRanges s q) as Hall.
  rewrite Forall_forall in Hall. specialize (Hall _ E).
  pose proof (byteZ_range c) as Hr.
  unfold IsPrint in Hall.
  replace ((0 <=? byteZ c) && (byteZ c <=? 255)) with true in Hall by (symmetry; lia).
  lia.
Qed.

Lemma custom_field_no_LF (tf : string) (first more : bool) (k v : value) :
  stylesDisabled st -> isCustom d k = true ->
  containsByte (Sprint d k) LF = false ->
  containsByte (SprintPlusV d v) LF = false ->
  containsByte (textField inPrintRanges d st tf first more k v) LF = false.
Proof.
  intros Hs Hc Hk Hv.
  rewrite (textField_default inPrintRanges d st tf first more k v Hc).
  destruct Hs as (_ & _ & _ & _ & Hks & Hvs & Hss & Hko & Hvo).
  unfold styledKey, lastLineStyle. rewrite Hko, Hvo, Hks, Hss.
  destruct (String.eqb (Sprint d k) EmptyString); [reflexivity|].
  assert (Hw : containsByte (writeSpace first) LF = false) by now destruct first.
  destruct (String.eqb (SprintPlusV d v) EmptyString) eqn:Ee.
  - change (containsByte (String DQ (str1 DQ)) LF) with false.
    cbn [negb andb]. rewrite Hvs, !containsByte_app, Hw, Hk. reflexivity.
  - rewrite Hv. cbn [negb andb].
    destruct (needsQuoting (SprintPlusV d v)).
    + rewrite Hvs, !containsByte_app, Hw, Hk, escape_no_LF. reflexivity.
    + rewrite Hvs, !containsByte_app, Hw, Hk, Hv. reflexivity.
Qed.

Lemma textField_no_LF (tf : string) (first more : bool) (k v : value) :
  stylesDisabled st ->
  singleLine d st tf k = true -> singleLine d st tf v = true ->
  containsByte (textField inPrintRanges d st tf first more k v) LF = false.
Proof.
  intros Hs Hk Hv.
  unfold singleLine in Hk, Hv.
  apply andb_true_iff in Hk as [Hk _]. apply andb_true_iff in Hk as [Hk _].
  apply negb_true_iff in Hk.
  apply andb_true_iff in Hv as [Hv Hf]. apply andb_true_iff in Hv as [Hv Hv'].
  apply negb_true_iff in Hv, Hv'.
  destruct (isCustom d k) eqn:Hc; [now apply custom_field_no_LF|].
  unfold isCustom in Hc. apply negb_false_iff in Hc.
  assert (Hw : containsByte (writeSpace first) LF = false) by now destruct first.
  destruct Hs as (Hts & Hcs & Hps & Hms & _).
  unfold textField.
  destruct (isKey k (TimestampKey d)).
  { destruct v; try reflexivity. apply negb_true_iff in Hf.
    now rewrite Hts, containsByte_app, Hw, Hf. }
  destruct (isKey k (LevelKey d)).
  { destruct v; try reflexivity. apply negb_true_iff in Hf.
    now rewrite containsByte_app, Hw, Hf. }
  destruct (isKey k (CallerKey d)).
  { destruct v; try reflexivity. cbn [Sprint] in Hv.
    now rewrite Hcs, !containsByte_app, Hw, Hv. }
  destruct (isKey k (PrefixKey d)).
  { destruct v; try reflexivity. cbn [Sprint] in Hv.
    now rewrite Hps, !containsByte_app, Hw, Hv. }
  destruct (isKey k (MessageKey d)); [|discriminate Hc].
  destruct v; try reflexivity; now rewrite Hms, containsByte_app, Hw, Hv.
Qed.

Lemma fieldsOf_no_LF (tf : string) (len : Z) (kvs : list value) :
  stylesDisabled st ->
  forallb (singleLine d st tf) kvs = true ->
  forall i, containsByte (fieldsOf inPrintRanges d st tf len i kvs) LF = false.
Proof.
  intros Hs. pattern kvs. apply pair_ind; clear kvs.
  - reflexivity.
  - reflexivity.
  - intros k v rest IH H i. cbn [forallb] in H.
    apply andb_true_iff in H as [Hk H]. apply andb_true_iff in H as [Hv H].
    cbn [fieldsOf]. rewrite containsByte_app, (IH H), orb_false_r.
    now apply textField_no_LF.
Qed.

(** X7. With styling disabled, [textFormatter] on an even number of
    arguments, none of which is displayed or formatted with a line feed,
    writes one line: the buffer holds a single line feed, the last byte.  A
    control character inside a value of a custom pair does not break the
    line, since such values are quoted and escaped. *)
Theorem entry_without_line_feed_is_one_line (tf : string) (kvs : list value) :
  stylesDisabled st ->
  Nat.even (List.length kvs) = true ->
  forallb (singleLine d st tf) kvs = true ->
  exists line,
    textFormatter inPrintRanges d st tf kvs = Some (line ++ str1 LF)
    /\ containsByte line LF = false.
Proof.
  intros Hs He Hall. rewrite textFormatter_even by exact He.
  eexists. split; [reflexivity|]. now apply fieldsOf_no_LF.
Qed.

End OneLine.

(** ** Multi-line blocks *)

Lemma segments_app_LF (s : string) :
  segments (s ++ str1 LF) = (segments s ++ [EmptyString])%list.
Proof.
  induction s as [|c t IH]; [reflexivity|].
  cbn [append segments]. rewrite IH.
  destruct (Ascii.eqb c LF); [reflexivity|].
  destruct (segments t) as [|seg rest] eqn:E; [|reflexivity].
  now apply segments_nonempty in E.
Qed.

Lemma segments_line (a b : string) :
  containsByte a LF = false ->
  segments (a ++ String LF b) = a :: segments b.
Proof.
  induction a as [|c a IH]; intros H.
  - cbn [append segments]. now rewrite Ascii.eqb_refl.
  - rewrite containsByte_cons in H. apply orb_false_iff in H as [Hc Ha].
    cbn [append segments]. rewrite Hc, (IH Ha). reflexivity.
Qed.

Lemma segments_last_line (a : string) :
  containsByte a LF = false -> segments a = [a].
Proof.
  intros H. apply segments_no_LF. unfold containsByte in H.
  now destruct (IndexByte a LF).
Qed.

Section Blocks.

Variable inPrintRanges : Z -> bool.
Variable st : Styles.

Lemma indentLines_final_empty (indent : string) (newline : bool) (key : string)
    (segs : list string) :
  indentLines inPrintRanges st indent newline key (segs ++ [EmptyString])
  = joinAll (map (fun seg =>
                    indent ++ ValueStyle st (escapeStringForOutput inPrintRanges seg false)
                    ++ str1 LF) segs).
Proof.
  induction segs as [|seg segs IH]; [reflexivity|].
  cbn [app map joinAll indentLines]. rewrite IH.
  destruct (segs ++ [EmptyString])%list eqn:E.
  - now destruct segs.
  - now rewrite !append_assoc.
Qed.

Lemma joinAll_lines_end (f : string -> string) (segs : list string) :
  segs <> [] ->
  exists block, joinAll (map (fun seg => f seg ++ str1 LF) segs) = block ++ str1 LF.
Proof.
  induction segs as [|seg segs IH]; [congruence|]. intros _.
  destruct segs as [|seg' segs].
  - exists (f seg). cbn. now rewrite append_empty_r.
  - destruct (IH ltac:(discriminate)) as [block Hb].
    exists ((f seg ++ str1 LF) ++ block).
    cbn [map joinAll] in *. rewrite Hb. now rewrite !append_assoc.
Qed.

(** X8. [writeIndent] on a value that ends with a line feed: every line,
    the last one included, is written as the indent marker, the escaped line
    under the generic value style and a line feed, and nothing is written
    for the empty rest.  So the block depends neither on [newline] nor on
    the key, whose style override is not applied, and it ends with a line
    feed. *)
Theorem writeIndent_value_ending_in_line_feed (s indent : string) (newline : bool)
    (key : string) :
  writeIndent inPrintRanges st (s ++ str1 LF) indent newline key
  = joinAll (map (fun seg =>
                    indent ++ ValueStyle st (escapeStringForOutput inPrintRanges seg false)
                    ++ str1 LF) (segments s))
  /\ exists block,
       writeIndent inPrintRanges st (s ++ str1 LF) indent newline key
       = block ++ str1 LF.
Proof.
  rewrite writeIndent_segments, segments_app_LF, indentLines_final_empty.
  split; [reflexivity|].
  destruct (joinAll_lines_end
              (fun seg => indent
                          ++ ValueStyle st (escapeStringForOutput inPrintRanges seg false))
              (segments s) (segments_nonempty s)) as [block Hb].
  exists block. rewrite <- Hb. f_equal. apply map_ext. intros seg.
  now rewrite append_assoc.
Qed.

Lemma LoggerGo_writeIndent_segments (str indent : string) (newline : bool)
    (key : string) :
  stylesDisabled st ->
  LoggerGo.writeIndent inPrintRanges str indent newline
  = indentLines inPrintRanges st indent newline key (segments str).
Proof.
  intros (_ & _ & _ & _ & _ & Hv & _ & _ & Hvo).
  funelim (LoggerGo.writeIndent inPrintRanges str indent newline).
  - rewrite (segments_LF _ _ e).
    match goal with
    | IH : forall key : string, _ |- _ => rewrite (IH key Hv Hvo)
    end.
    cbn [indentLines].
    destruct (segments (dropBytes (S nl) str)) eqn:E;
      [now apply segments_nonempty in E|].
    rewrite Hv. reflexivity.
  - rewrite (segments_no_LF _ e). cbn [indentLines].
    unfold lastLineStyle. rewrite Hvo, Hv. reflexivity.
Qed.

(** X9. With styling disabled the two copies of the writers agree:
    [writeIndent] of text.go writes what [writeIndent] of logger.go writes,
    and [escapeStringForOutput] returns what [writeEscapedForOutput]
    writes. *)
Theorem unstyled_writers_agree (str indent : string) (newline q : bool)
    (key : string) :
  stylesDisabled st ->
  LoggerGo.writeIndent inPrintRanges str indent newline
  = writeIndent inPrintRanges st str indent newline key
  /\ LoggerGo.writeEscapedForOutput inPrintRanges str q
     = escapeStringForOutput inPrintRanges str q.
Proof.
  intros Hs. split; [|reflexivity].
  rewrite writeIndent_segments. now apply LoggerGo_writeIndent_segments.
Qed.

Lemma indentLines_segments (indent key : string) (segs : list string) :
  stylesDisabled st -> containsByte indent LF = false ->
  segs <> [] -> last segs EmptyString <> EmptyString ->
  segments (indentLines inPrintRanges st indent false key segs)
  = map (fun seg => indent ++ escapeStringForOutput inPrintRanges seg false) segs.
Proof.
  intros Hs Hi. destruct Hs as (_ & _ & _ & _ & _ & Hv & _ & _ & Hvo).
  induction segs as [|seg segs IH]; [congruence|]. intros _ Hlast.
  destruct segs as [|seg' segs].
  - cbn [last] in Hlast. apply String.eqb_neq in Hlast.
    cbn [indentLines map]. rewrite Hlast. unfold lastLineStyle. rewrite Hvo, Hv.
    rewrite append_empty_r. apply segments_last_line.
    now rewrite containsByte_app, Hi, escape_no_LF.
  - cbn [indentLines]. rewrite Hv.
    change (indent ++ ?a ++ str1 LF ++ ?b) with (indent ++ a ++ String LF b).
    rewrite <- append_assoc. rewrite segments_line
      by (now rewrite containsByte_app, Hi, escape_no_LF).
    cbn [map]. f_equal. apply IH; [discriminate|exact Hlast].
Qed.

Lemma indentLines_newline (indent key : string) (segs : list string) :
  segs <> [] -> last segs EmptyString <> EmptyString ->
  indentLines inPrintRanges st indent true key segs
  = indentLines inPrintRanges st indent false key segs ++ str1 LF.
Proof.
  induction segs as [|seg segs IH]; [congruence|]. intros _ Hlast.
  destruct segs as [|seg' segs].
  - cbn [last] in Hlast. apply String.eqb_neq in Hlast.
    cbn [indentLines]. rewrite Hlast. now rewrite append_empty_r, append_assoc.
  - cbn [indentLines] in *. rewrite IH by (discriminate || exact Hlast).
    now rewrite !append_assoc.
Qed.

(** X10. With styling disabled and an indent marker without line feed, the
    block [writeIndent] writes for a value whose last line is not empty,
    split at its line feeds, is the lines of the value in order, each one
    escaped and with the marker in front: no line is lost, added or joined.
    With [newline] set the same block is followed by one line feed. *)
Theorem block_lines_are_the_value_lines (str indent key : string) :
  stylesDisabled st -> containsByte indent LF = false ->
  last (segments str) EmptyString <> EmptyString ->
  segments (writeIndent inPrintRanges st str indent false key)
  = map (fun seg => indent ++ escapeStringForOutput inPrintRanges seg false)
        (segments str)
  /\ writeIndent inPrintRanges st str indent true key
     = writeIndent inPrintRanges st str indent false key ++ str1 LF.
Proof.
  intros Hs Hi Hlast. rewrite !writeIndent_segments. split.
  - apply indentLines_segments; auto using segments_nonempty.
  - apply indentLines_newline; auto using segments_nonempty.
Qed.

End Blocks.

(** ** Entries *)

Section Entries.

Variable inPrintRanges : Z -> bool.
Variable d : Decls.
Variable st : Styles.

(** X11. [textFormatter] panics (index out of range at [keyvals[i+1]])
    exactly when it is given an odd number of arguments; when it returns,
    the buffer ends with a line feed; and without arguments the buffer is
    the line feed alone. *)
Theorem textFormatter_panics_iff_odd (tf : string) (kvs : list value) :
  (textFormatter inPrintRanges d st tf kvs = None
   <-> Nat.even (List.length kvs) = false)
  /\ (forall out, textFormatter inPrintRanges d st tf kvs = Some out ->
      exists line, out = line ++ str1 LF)
  /\ textFormatter inPrintRanges d st tf [] = Some (str1 LF).
Proof.
  split; [|split].
  - destruct (Nat.even (List.length kvs)) eqn:E.
    + rewrite textFormatter_even by exact E. split; discriminate.
    + unfold textFormatter. rewrite textFields_odd by exact E. split; reflexivity.
  - intros out. unfold textFormatter.
    destruct (textFields inPrintRanges d st tf _ 0 kvs) as [body|]; [|discriminate].
    intros [= <-]. now exists body.
  - reflexivity.
Qed.

Lemma assemble_parity (l : logger) (stack : list Frame) (lvl : Z) (msg : value)
    (kvs : list value) :
  Nat.even (List.length (assemble d l stack lvl msg kvs))
  = Nat.even (List.length (keyvals l ++ kvs)).
Proof.
  rewrite assemble_eq, even_app, reservedFields_even.
  now destruct (Nat.even (List.length (keyvals l ++ kvs))).
Qed.

Lemma log_total_even (l : logger) (stack : list Frame) (lvl : Z) (msg : value)
    (kvs : list value) :
  w l = Sink -> level l <= lvl -> formatter l = TextFormatter ->
  Nat.even (List.length (keyvals l ++ kvs)) = true ->
  exists line,
    log inPrintRanges d st l stack lvl msg kvs
    = Formatted (assemble d l stack lvl msg kvs) (Some (line ++ str1 LF)).
Proof.
  intros Hw Hl Hf E. rewrite log_accepted by assumption.
  rewrite textFormatter_even by (now rewrite assemble_parity).
  eexists. reflexivity.
Qed.

Lemma log_total_odd (l : logger) (stack : list Frame) (lvl : Z) (msg : value)
    (kvs : list value) :
  w l = Sink -> level l <= lvl -> formatter l = TextFormatter ->
  Nat.even (List.length (keyvals l ++ kvs)) = false ->
  log inPrintRanges d st l stack lvl msg kvs
  = Formatted (assemble d l stack lvl msg kvs) None.
Proof.
  intros Hw Hl Hf E. rewrite log_accepted by assumption.
  unfold textFormatter. rewrite textFields_odd; [reflexivity|].
  now rewrite assemble_parity.
Qed.

(** X12. A call that passes the gate of a logger with the text formatter
    panics exactly when the bound fields and the key/value list of the call
    have an odd length together; otherwise a line that ends with a line feed
    is written. *)
Theorem log_panics_iff_odd_total (l : logger) (stack : list Frame) (lvl : Z)
    (msg : value) (kvs : list value) :
  w l = Sink -> level l <= lvl -> formatter l = TextFormatter ->
  (log inPrintRanges d st l stack lvl msg kvs
   = Formatted (assemble d l stack lvl msg kvs) None
   <-> Nat.even (List.length (keyvals l ++ kvs)) = false)
  /\ (Nat.even (List.length (keyvals l ++ kvs)) = true ->
      exists line,
        log inPrintRanges d st l stack lvl msg kvs
        = Formatted (assemble d l stack lvl msg kvs) (Some (line ++ str1 LF))).
Proof.
  intros Hw Hl Hf. split; [split|].
  - intros H. destruct (Nat.even (List.length (keyvals l ++ kvs))) eqn:E; [|reflexivity].
    destruct (log_total_even l stack lvl msg kvs Hw Hl Hf E) as [line Hline].
    rewrite Hline in H. discriminate H.
  - now apply log_total_odd.
  - now apply log_total_even.
Qed.

Lemma log_With (l : logger) (a : list value) (stack : list Frame) (lvl : Z)
    (msg : value) (kvs : list value) :
  log inPrintRanges d st (With l a) stack lvl msg kvs
  = log inPrintRanges d st l stack lvl msg (a ++ kvs).
Proof.
  unfold log. cbn [With w level formatter timeFormat].
  rewrite !assemble_eq.
  change (reservedFields d (With l a) stack lvl msg)
    with (reservedFields d l stack lvl msg).
  cbn [With keyvals]. now rewrite <- !app_assoc.
Qed.

(** X14. [Fatal] ends the process with status 1 even when the entry is not
    written, the sink being the discard sink or the threshold above the
    fatal level.  When the entry passes the gate of a logger with the text
    formatter, the line is written and the process exits with status 1, or,
    the fields having an odd length together, the formatter panics and the
    exit is not reached. *)
Theorem Fatal_exits_even_when_suppressed (l : logger) (stack : list Frame)
    (msg : value) (kvs : list value) :
  (w l = Discard \/ FatalLevel d < level l ->
   Fatal inPrintRanges d st l stack msg kvs = (Skipped, Exit 1))
  /\ (w l = Sink -> level l <= FatalLevel d -> formatter l = TextFormatter ->
      (Nat.even (List.length (keyvals l ++ kvs)) = true ->
       exists line,
         Fatal inPrintRanges d st l stack msg kvs
         = (Formatted (assemble d l stack (FatalLevel d) msg kvs)
              (Some (line ++ str1 LF)), Exit 1))
      /\ (Nat.even (List.length (keyvals l ++ kvs)) = false ->
          Fatal inPrintRanges d st l stack msg kvs
          = (Formatted (assemble d l stack (FatalLevel d) msg kvs) None, Panic))).
Proof.
  split.
  - intros H. unfold Fatal, log. destruct (w l); [reflexivity|].
    destruct H as [H|H]; [discriminate|].
    now replace (level l >? FatalLevel d) with true by (symmetry; lia).
  - intros Hw Hl Hf. split.
    + intros E.
      destruct (log_total_even l stack (FatalLevel d) msg kvs Hw Hl Hf E)
        as [line Hline].
      exists line. unfold Fatal. now rewrite Hline.
    + intros E. unfold Fatal.
      now rewrite (log_total_odd l stack (FatalLevel d) msg kvs Hw Hl Hf E).
Qed.

(** X15. The setters act as switches.  [GetLevel] returns what [SetLevel]
    set; a call below the new threshold is skipped, and a call that passes
    the old and the new threshold gives what it gave before, so the
    threshold is a gate and nothing else.  After [SetOutput] with the
    discard sink every call is skipped.  [SetFormatter] selects the
    formatter that gets the assembled sequence, and the sequence is the same
    for both. *)
Theorem setters_act_as_switches (l : logger) (lv : Z) (stack : list Frame)
    (lvl : Z) (msg : value) (kvs : list value) :
  GetLevel (SetLevel l lv) = lv
  /\ (lvl < lv -> log inPrintRanges d st (SetLevel l lv) stack lvl msg kvs = Skipped)
  /\ (lv <= lvl -> level l <= lvl ->
      log inPrintRanges d st (SetLevel l lv) stack lvl msg kvs
      = log inPrintRanges d st l stack lvl msg kvs)
  /\ log inPrintRanges d st (SetOutput l Discard) stack lvl msg kvs = Skipped
  /\ (w l = Sink -> level l <= lvl ->
      log inPrintRanges d st (SetFormatter l JSONFormatter) stack lvl msg kvs
      = Formatted (assemble d l stack lvl msg kvs)
          (jsonFormatter d (assemble d l stack lvl msg kvs))
      /\ log inPrintRanges d st (SetFormatter l TextFormatter) stack lvl msg kvs
         = Formatted (assemble d l stack lvl msg kvs)
             (textFormatter inPrintRanges d st (timeFormat l)
                (assemble d l stack lvl msg kvs))).
Proof.
  split; [reflexivity|]. split; [|split; [|split]].
  - intros H. unfold log. cbn [SetLevel w level].
    destruct (w l); [reflexivity|].
    now replace (lv >? lvl) with true by (symmetry; lia).
  - intros H1 H2. unfold log. cbn [SetLevel w level formatter timeFormat].
    replace (lv >? lvl) with false by (symmetry; lia).
    replace (level l >? lvl) with false by (symmetry; lia).
    reflexivity.
  - reflexivity.
  - intros Hw Hl. unfold log. cbn [SetFormatter w level formatter timeFormat].
    rewrite Hw. replace (level l >? lvl) with false by (symmetry; lia).
    split; reflexivity.
Qed.

Lemma textField_timestamp (tf : string) (first more : bool) (t : Z) :
  textField inPrintRanges d st tf first more (VString (TimestampKey d)) (VTime t)
  = writeSpace first ++ TimestampStyle st (TimeFormat d t tf).
Proof.
  unfold textField. now rewrite isKey_string, String.eqb_refl.
Qed.

Lemma textField_prefix (tf : string) (first more : bool) (p : string) :
  keysDistinct d ->
  textField inPrintRanges d st tf first more (VString (PrefixKey d)) (VString p)
  = writeSpace first ++ PrefixStyle st (p ++ ":").
Proof.
  intros H. apply keysDistinct_neq in H. unfold textField.
  rewrite !isKey_string, String.eqb_refl.
  replace (String.eqb (PrefixKey d) (TimestampKey d)) with false
    by (symmetry; apply String.eqb_neq; intuition congruence).
  replace (String.eqb (PrefixKey d) (LevelKey d)) with false
    by (symmetry; apply String.eqb_neq; intuition congruence).
  replace (String.eqb (PrefixKey d) (CallerKey d)) with false
    by (symmetry; apply String.eqb_neq; intuition congruence).
  reflexivity.
Qed.

Ltac flatten_append :=
  repeat (progress (rewrite ?append_assoc, ?append_empty_r; cbn [append])).

(** X16. The header of a line follows the setters.  On a logger without
    bound fields and with the caller switched off: after [EnableTimestamp],
    [SetTimeFormat], [SetTimeFunction] and [SetPrefix] with a non-empty
    prefix, a call with a string message writes the timestamp style applied
    to the instant the time function returns in the layout set, the level,
    the prefix style applied to the prefix with a colon, and the message
    style applied to the message, one space between them and a line feed at
    the end; prefix and message reach their styles neither quoted nor
    escaped.  After [DisableTimestamp] and [SetPrefix] with the empty prefix
    it writes the level and the styled message only. *)
Theorem header_follows_the_setters (l : logger) (stack : list Frame) (lvl : Z)
    (now : unit -> Z) (layout p m : string) :
  keysDistinct d ->
  w l = Sink -> formatter l = TextFormatter -> keyvals l = [] ->
  level l <= lvl -> lvl <> noLevel d -> p <> EmptyString ->
  log inPrintRanges d st
    (SetPrefix
       (SetTimeFunction (SetTimeFormat (EnableTimestamp (DisableCaller l)) layout) now) p)
    stack lvl (VString m) []
  = Formatted
      [VString (TimestampKey d); VTime (now tt); VString (LevelKey d); VLevel lvl;
       VString (PrefixKey d); VString p; VString (MessageKey d); VString m]
      (Some (TimestampStyle st (TimeFormat d (now tt) layout) ++ " "
             ++ levelStyle st lvl ++ " " ++ PrefixStyle st (p ++ ":") ++ " "
             ++ MessageStyle st m ++ str1 LF))
  /\ log inPrintRanges d st (SetPrefix (DisableTimestamp (DisableCaller l)) EmptyString)
       stack lvl (VString m) []
     = Formatted
         [VString (LevelKey d); VLevel lvl; VString (MessageKey d); VString m]
         (Some (levelStyle st lvl ++ " " ++ MessageStyle st m ++ str1 LF)).
Proof.
  intros Hd Hw Hf Hk Hl Hn Hp.
  assert (Hn' : (lvl =? noLevel d) = false) by lia.
  apply String.eqb_neq in Hp.
  split.
  - rewrite log_accepted by assumption.
    unfold assemble.
    cbn [SetPrefix SetTimeFunction SetTimeFormat EnableTimestamp DisableCaller
         timestamp caller prefix keyvals timeFunc timeFormat].
    rewrite Hn', Hp, Hk. cbn [negb app Sprint]. f_equal.
    unfold textFormatter. cbn [textFields List.length].
    rewrite textField_timestamp, textField_level, textField_prefix,
      textField_message by assumption.
    cbn [Z.of_nat Z.eqb writeSpace Z.add].
    cbn -[append]. flatten_append. reflexivity.
  - rewrite log_accepted by assumption.
    unfold assemble.
    cbn [SetPrefix DisableTimestamp DisableCaller
         timestamp caller prefix keyvals timeFunc timeFormat].
    rewrite Hn', Hk. cbn [negb app Sprint String.eqb]. f_equal.
    unfold textFormatter. cbn [textFields List.length].
    rewrite textField_level, textField_message by assumption.
    cbn -[append]. flatten_append. reflexivity.
Qed.

(** X17. On a logger without timestamp, caller, prefix and bound fields: a
    call with a nil message and no pairs writes the level alone; [Print]
    writes the styled message alone, without a level; and [Print] with a
    nil message writes an empty line. *)
Theorem entry_without_level_or_message (l : logger) (stack : list Frame) (lvl : Z)
    (m : string) :
  keysDistinct d ->
  w l = Sink -> formatter l = TextFormatter ->
  timestamp l = false -> caller l = false -> prefix l = EmptyString ->
  keyvals l = [] ->
  (level l <= lvl -> lvl <> noLevel d ->
   log inPrintRanges d st l stack lvl VNil []
   = Formatted [VString (LevelKey d); VLevel lvl] (Some (levelStyle st lvl ++ str1 LF)))
  /\ (level l <= noLevel d ->
      Print inPrintRanges d st l stack (VString m) []
      = Formatted [VString (MessageKey d); VString m]
          (Some (MessageStyle st m ++ str1 LF))
      /\ Print inPrintRanges d st l stack VNil [] = Formatted [] (Some (str1 LF))).
Proof.
  intros Hd Hw Hf Hts Hc Hp Hk.
  split; [intros Hl Hn|intros Hl; split]; unfold Print;
    rewrite log_accepted by assumption; unfold assemble;
    rewrite Hts, Hc, Hp, Hk.
  - replace (lvl =? noLevel d) with false by (symmetry; lia).
    cbn [negb String.eqb app]. f_equal.
    unfold textFormatter. cbn [textFields List.length].
    rewrite textField_level by assumption. cbn -[append].
    now rewrite append_empty_r.
  - rewrite Z.eqb_refl. cbn [negb String.eqb app Sprint]. f_equal.
    unfold textFormatter. cbn [textFields List.length].
    rewrite textField_message by assumption. cbn -[append].
    now rewrite append_empty_r.
  - rewrite Z.eqb_refl. reflexivity.
Qed.

Lemma pairValues_even (pairs : list (string * string)) :
  Nat.even (List.length (pairValues pairs)) = true.
Proof.
  induction pairs as [|kv pairs IH]; [reflexivity|exact IH].
Qed.

Lemma textField_bare_styled (tf : string) (first more : bool) (key val : string) :
  isCustom d (VString key) = true ->
  key <> EmptyString -> val <> EmptyString -> needsQuoting val = false ->
  textField inPrintRanges d st tf first more (VString key) (VString val)
  = writeSpace first ++ styledKey st key ++ SeparatorStyle st separator
    ++ lastLineStyle st key val.
Proof.
  intros Hc Hk Hv Hq.
  assert (Hnl : containsByte val LF = false).
  { apply normalBytes_no_LF. rewrite needsQuoting_normalBytes in Hq.
    now apply negb_false_iff. }
  rewrite (textField_default inPrintRanges d st tf first more _ _ Hc).
  cbn [Sprint SprintPlusV].
  apply String.eqb_neq in Hk, Hv. rewrite Hk, Hv, Hnl, Hq. cbn [negb andb].
  reflexivity.
Qed.

Lemma fieldsOf_bare_pairs (tf : string) (len : Z) (pairs : list (string * string)) :
  Forall (fun kv => isCustom d (VString (fst kv)) = true /\ fst kv <> EmptyString
                    /\ snd kv <> EmptyString /\ needsQuoting (snd kv) = false) pairs ->
  forall i, 0 < i ->
    fieldsOf inPrintRanges d st tf len i (pairValues pairs)
    = joinAll (map (fun kv => " " ++ styledKey st (fst kv)
                              ++ SeparatorStyle st separator
                              ++ lastLineStyle st (fst kv) (snd kv)) pairs).
Proof.
  induction 1 as [|kv pairs (Hc & Hk & Hv & Hq) _ IH]; intros i Hi;
    [reflexivity|].
  cbn [pairValues flat_map app fieldsOf map joinAll].
  fold (pairValues pairs). rewrite IH by lia.
  rewrite textField_bare_styled by assumption.
  replace (i =? 0) with false by (symmetry; lia). cbn [writeSpace].
  reflexivity.
Qed.

(** X18. A logger without timestamp, caller, prefix and bound fields, called
    with a message that is not nil and any number of string pairs, the keys
    custom and not empty, the values not empty and of normal runes only,
    writes: the level, a space, the message style applied to the display
    form of the message, then for each pair in the order of the call a
    space, the styled key, the styled separator and the styled value, and a
    line feed at the end.  No value is quoted or escaped, and none is laid
    out as a block. *)
Theorem entry_of_bare_pairs (l : logger) (stack : list Frame) (lvl : Z)
    (msg : value) (pairs : list (string * string)) :
  keysDistinct d ->
  w l = Sink -> formatter l = TextFormatter -> level l <= lvl -> lvl <> noLevel d ->
  timestamp l = false -> caller l = false -> prefix l = EmptyString ->
  keyvals l = [] -> msg <> VNil ->
  Forall (fun kv => isCustom d (VString (fst kv)) = true /\ fst kv <> EmptyString
                    /\ snd kv <> EmptyString /\ needsQuoting (snd kv) = false) pairs ->
  log inPrintRanges d st l stack lvl msg (pairValues pairs)
  = Formatted
      ([VString (LevelKey d); VLevel lvl; VString (MessageKey d);
        VString (Sprint d msg)] ++ pairValues pairs)%list
      (Some (levelStyle st lvl ++ " " ++ MessageStyle st (Sprint d msg)
             ++ joinAll (map (fun kv => " " ++ styledKey st (fst kv)
                                        ++ SeparatorStyle st separator
                                        ++ lastLineStyle st (fst kv) (snd kv)) pairs)
             ++ str1 LF)).
Proof.
  intros Hd Hw Hf Hl Hn Hts Hc Hp Hk Hm Hpairs.
  assert (Hn' : (lvl =? noLevel d) = false) by lia.
  rewrite log_accepted by assumption.
  assert (Ha : assemble d l stack lvl msg (pairValues pairs)
               = ([VString (LevelKey d); VLevel lvl; VString (MessageKey d);
                   VString (Sprint d msg)] ++ pairValues pairs)%list).
  { unfold assemble. rewrite Hts, Hc, Hp, Hk, Hn'. cbn [negb String.eqb app].
    destruct msg; [congruence|reflexivity..]. }
  rewrite Ha. f_equal.
  rewrite textFormatter_even by (cbn [List.length Nat.even app]; apply pairValues_even).
  f_equal. cbn [fieldsOf app].
  rewrite textField_level, textField_message by assumption.
  rewrite (fieldsOf_bare_pairs _ _ pairs Hpairs) by lia.
  cbn [Z.eqb writeSpace]. cbn -[append joinAll Sprint map].
  flatten_append. reflexivity.
Qed.

End Entries.

(** ** Loggers derived from the same parent *)

Lemma nth_store_same (h : Slices.heap) (a : nat) (arr : list value) :
  (a < List.length h)%nat -> nth a (Slices.store h a arr) [] = arr.
Proof.
  intros H. unfold Slices.store.
  rewrite app_nth2 by (rewrite length_firstn; lia).
  rewrite length_firstn. replace (a - Nat.min a (List.length h))%nat with 0%nat by lia.
  reflexivity.
Qed.

Lemma nth_store_other (h : Slices.heap) (a a' : nat) (arr : list value) :
  (a < List.length h)%nat -> a' <> a ->
  nth a' (Slices.store h a arr) [] = nth a' h [].
Proof.
  intros H Hne. unfold Slices.store.
  destruct (Nat.lt_ge_cases a' a) as [Hlt|Hge].
  - rewrite app_nth1 by (rewrite length_firstn; lia).
    rewrite <- (firstn_skipn a h) at 2.
    now rewrite app_nth1 by (rewrite length_firstn; lia).
  - rewrite app_nth2 by (rewrite length_firstn; lia).
    rewrite length_firstn.
    replace (a' - Nat.min a (List.length h))%nat with (S (a' - S a)) by lia.
    cbn [nth]. rewrite nth_skipn. f_equal. lia.
Qed.

Lemma length_store (h : Slices.heap) (a : nat) (arr : list value) :
  (a < List.length h)%nat -> List.length (Slices.store h a arr) = List.length h.
Proof.
  intros H. unfold Slices.store.
  rewrite length_app, length_firstn. cbn [List.length]. rewrite length_skipn. lia.
Qed.

Section Siblings.

Variable inPrintRanges : Z -> bool.
Variable d : Decls.
Variable st : Styles.
Variable growth : nat -> nat -> nat.

Lemma append_elems (h : Slices.heap) (s : Slices.slice) (xs : list value) :
  Slices.inHeap h s ->
  Slices.elems (fst (Slices.append growth h s xs)) (snd (Slices.append growth h s xs))
  = (Slices.elems h s ++ xs)%list.
Proof.
  intros (Ha & Hl & Hc). unfold Slices.append. cbv zeta.
  destruct (Nat.leb_spec (Slices.len s + List.length xs) (Slices.cap s)) as [Hfit|Hno];
    cbn [fst snd]; unfold Slices.elems; cbn [Slices.array Slices.len].
  - rewrite nth_store_same by assumption.
    rewrite app_assoc, firstn_app.
    rewrite length_app, length_firstn, Hc.
    replace (Nat.min (Slices.len s) (Slices.cap s)) with (Slices.len s) by lia.
    rewrite Nat.sub_diag. cbn [firstn]. rewrite app_nil_r.
    apply firstn_all2. rewrite length_app, length_firstn. lia.
  - rewrite app_nth2 by lia. rewrite Nat.sub_diag. cbn [nth].
    rewrite app_assoc, firstn_app.
    rewrite length_app, length_firstn, Hc.
    replace (Nat.min (Slices.len s) (Slices.cap s)) with (Slices.len s) by lia.
    rewrite Nat.sub_diag. cbn [firstn]. rewrite app_nil_r.
    apply firstn_all2. rewrite length_app, length_firstn. lia.
Qed.

Lemma append_inHeap_parent (h : Slices.heap) (s : Slices.slice) (xs : list value) :
  Slices.inHeap h s ->
  Slices.inHeap (fst (Slices.append growth h s xs)) s
  /\ Slices.elems (fst (Slices.append growth h s xs)) s = Slices.elems h s.
Proof.
  intros (Ha & Hl & Hc). unfold Slices.append, Slices.inHeap, Slices.elems. cbv zeta.
  destruct (Nat.leb_spec (Slices.len s + List.length xs) (Slices.cap s)) as [Hfit|Hno];
    cbn [fst].
  - rewrite length_store, nth_store_same by assumption.
    repeat split; try assumption.
    + rewrite !length_app, length_firstn, length_skipn. lia.
    + rewrite firstn_app, firstn_firstn, Nat.min_id, length_firstn, Hc.
      replace (Slices.len s - Nat.min (Slices.len s) (Slices.cap s))%nat with 0%nat by lia.
      cbn [firstn]. apply app_nil_r.
  - rewrite length_app. cbn [List.length].
    rewrite app_nth1 by assumption.
    repeat split; try assumption; lia.
Qed.

Lemma view_elems (h h' : Slices.heap) (l : Slices.boundLogger) (s : Slices.slice)
    (kvs : list value) :
  Slices.elems h' s = (Slices.elems h (Slices.bound l) ++ kvs)%list ->
  Slices.view h' {| Slices.fields := Slices.fields l; Slices.bound := s |}
  = With (Slices.view h l) kvs.
Proof.
  intros E. unfold Slices.view, With. cbn. now rewrite E.
Qed.

(** X19. [With] appends to the slice of bound fields of the parent.  Right
    after a derivation the derived logger carries the fields of the parent
    followed by the new ones, and the parent is as it was.  But when the
    slice of the parent has room for the new fields, a second logger derived
    from the same parent writes its fields into the same array: the first
    derived logger then carries the fields of the second, for lists of the
    same length.  When the slice of the parent has no room, the first
    derived logger keeps the fields it was given. *)
Theorem With_siblings_share_the_array (h : Slices.heap) (p : Slices.boundLogger)
    (a b : list value) :
  Slices.inHeap h (Slices.bound p) ->
  let h1 := fst (Slices.With growth h p a) in
  let c1 := snd (Slices.With growth h p a) in
  let h2 := fst (Slices.With growth h1 p b) in
  let c2 := snd (Slices.With growth h1 p b) in
  Slices.view h1 c1 = With (Slices.view h p) a
  /\ Slices.view h2 c2 = With (Slices.view h p) b
  /\ Slices.view h2 p = Slices.view h p
  /\ ((Slices.len (Slices.bound p) + List.length a <= Slices.cap (Slices.bound p))%nat ->
      List.length b = List.length a ->
      Slices.view h2 c1 = With (Slices.view h p) b)
  /\ ((Slices.cap (Slices.bound p) < Slices.len (Slices.bound p) + List.length a)%nat ->
      Slices.view h2 c1 = With (Slices.view h p) a).
Proof.
  intros Hp. cbv zeta. unfold Slices.With.
  destruct (Slices.append growth h (Slices.bound p) a) as [h1 s1] eqn:E1. cbn [fst snd].
  destruct (Slices.append growth h1 (Slices.bound p) b) as [h2 s2] eqn:E2. cbn [fst snd].
  pose proof (append_elems h (Slices.bound p) a Hp) as A1.
  destruct (append_inHeap_parent h (Slices.bound p) a Hp) as [Hp1 P1].
  rewrite E1 in A1, Hp1, P1. cbn [fst snd] in A1, Hp1, P1.
  pose proof (append_elems h1 (Slices.bound p) b Hp1) as A2.
  destruct (append_inHeap_parent h1 (Slices.bound p) b Hp1) as [Hp2 P2].
  rewrite E2 in A2, Hp2, P2. cbn [fst snd] in A2, Hp2, P2.
  split; [now apply view_elems|].
  split; [apply view_elems; now rewrite A2, P1|].
  split; [unfold Slices.view; now rewrite P2, P1|].
  destruct Hp as (Ha & Hl & Hc). destruct Hp1 as (Ha1 & _ & Hc1).
  split.
  - intros Hfit Hlen. apply view_elems.
    unfold Slices.append in E1, E2. cbv zeta in E1, E2.
    rewrite Hlen in E2.
    destruct (Nat.leb_spec (Slices.len (Slices.bound p) + List.length a)
                (Slices.cap (Slices.bound p))) as [_|Hno]; [|lia].
    injection E1 as <- <-. injection E2 as <- <-.
    unfold Slices.elems. cbn [Slices.array Slices.len].
    rewrite nth_store_same by (rewrite length_store; assumption).
    rewrite nth_store_same by assumption.
    rewrite (firstn_app (Slices.len (Slices.bound p))), firstn_firstn, Nat.min_id.
    rewrite length_firstn, Hc.
    replace (Slices.len (Slices.bound p)
             - Nat.min (Slices.len (Slices.bound p)) (Slices.cap (Slices.bound p)))%nat
      with 0%nat by lia.
    cbn [firstn]. rewrite app_nil_r.
    rewrite app_assoc, firstn_app, length_app, length_firstn, Hc, Hlen.
    replace (Nat.min (Slices.len (Slices.bound p)) (Slices.cap (Slices.bound p)))
      with (Slices.len (Slices.bound p)) by lia.
    rewrite Nat.sub_diag. cbn [firstn]. rewrite app_nil_r.
    apply firstn_all2. rewrite length_app, length_firstn. lia.
  - intros Hno. apply view_elems. rewrite <- A1.
    unfold Slices.append in E1, E2. cbv zeta in E1, E2.
    destruct (Nat.leb_spec (Slices.len (Slices.bound p) + List.length a)
                (Slices.cap (Slices.bound p))) as [Hfit|_]; [lia|].
    injection E1 as <- <-.
    unfold Slices.elems. cbn [Slices.array Slices.len]. f_equal.
    destruct (Nat.leb_spec (Slices.len (Slices.bound p) + List.length b)
                (Slices.cap (Slices.bound p))) as [Hfit|Hno'];
      injection E2 as <- <-.
    + apply nth_store_other; [assumption|lia].
    + apply app_nth1. rewrite length_app. cbn [List.length]. lia.
Qed.

(** The slice [append] returns lies within its array, when the array a
    growing [append] allocates holds at least the elements needed. *)
Lemma append_inHeap_result (h : Slices.heap) (s : Slices.slice) (xs : list value) :
  (forall c n : nat, (n <= growth c n)%nat) ->
  Slices.inHeap h s ->
  Slices.inHeap (fst (Slices.append growth h s xs)) (snd (Slices.append growth h s xs)).
Proof.
  intros Hg (Ha & Hl & Hc). unfold Slices.append, Slices.inHeap. cbv zeta.
  destruct (Nat.leb_spec (Slices.len s + List.length xs) (Slices.cap s)) as [Hfit|Hno];
    cbn [fst snd Slices.array Slices.len Slices.cap].
  - rewrite length_store, nth_store_same by assumption.
    repeat split; try assumption.
    rewrite !length_app, length_firstn, length_skipn. lia.
  - rewrite length_app. cbn [List.length].
    rewrite app_nth2 by lia. rewrite Nat.sub_diag. cbn [nth].
    pose proof (Hg (Slices.cap s) (Slices.len s + List.length xs)%nat) as G.
    repeat split; try lia.
    unfold Slices.elems. rewrite !length_app, length_firstn, repeat_length. lia.
Qed.

(** [append] to a slice leaves the elements of every slice on another
    array, and of every slice on the same array that is not longer. *)
Lemma append_elems_before (h : Slices.heap) (s s' : Slices.slice) (xs : list value) :
  Slices.inHeap h s -> (Slices.array s' < List.length h)%nat ->
  (Slices.array s' = Slices.array s -> (Slices.len s' <= Slices.len s)%nat) ->
  Slices.elems (fst (Slices.append growth h s xs)) s' = Slices.elems h s'.
Proof.
  intros (Ha & Hl & Hc) Ha' Hlen. unfold Slices.append, Slices.elems. cbv zeta.
  destruct (Nat.leb_spec (Slices.len s + List.length xs) (Slices.cap s)) as [Hfit|Hno];
    cbn [fst].
  - destruct (Nat.eq_dec (Slices.array s') (Slices.array s)) as [E|E].
    + specialize (Hlen E). rewrite E.
      rewrite nth_store_same by assumption.
      rewrite firstn_app, firstn_firstn, length_firstn, Hc.
      replace (Slices.len s' - Nat.min (Slices.len s) (Slices.cap s))%nat with 0%nat by lia.
      cbn [firstn]. rewrite app_nil_r. f_equal. lia.
    + now rewrite nth_store_other.
  - now rewrite app_nth1.
Qed.

(** X13. A logger derived by [With] logs with the new fields in front of
    the key/value list of the call: right after the derivation, a call
    through the derived logger gives what the same call through the parent
    gives with the new fields put before its list.  A logger derived from
    the derived one logs with both lists in front, in the order of the
    derivations, and that second derivation leaves what the first derived
    logger and the parent log as it was (loggers derived from the same
    parent are another matter, see X19).  The capacity a growing [append]
    allocates is taken to hold the elements needed. *)
Theorem With_binds_fields_in_front (h : Slices.heap) (p : Slices.boundLogger)
    (a b : list value) (stack : list Frame) (lvl : Z) (msg : value)
    (kvs : list value) :
  Slices.inHeap h (Slices.bound p) ->
  (forall c n : nat, (n <= growth c n)%nat) ->
  let h1 := fst (Slices.With growth h p a) in
  let c1 := snd (Slices.With growth h p a) in
  let h2 := fst (Slices.With growth h1 c1 b) in
  let c2 := snd (Slices.With growth h1 c1 b) in
  log inPrintRanges d st (Slices.view h1 c1) stack lvl msg kvs
  = log inPrintRanges d st (Slices.view h p) stack lvl msg (a ++ kvs)
  /\ log inPrintRanges d st (Slices.view h2 c2) stack lvl msg kvs
     = log inPrintRanges d st (Slices.view h p) stack lvl msg (a ++ b ++ kvs)
  /\ Slices.view h2 c1 = Slices.view h1 c1
  /\ Slices.view h2 p = Slices.view h p.
Proof.
  intros Hp Hg. cbv zeta. unfold Slices.With.
  pose proof (append_elems h (Slices.bound p) a Hp) as A1.
  destruct (append_inHeap_parent h (Slices.bound p) a Hp) as [Hp1 P1].
  pose proof (append_inHeap_result h (Slices.bound p) a Hg Hp) as Hc1.
  assert (L1 : Slices.len (snd (Slices.append growth h (Slices.bound p) a))
               = (Slices.len (Slices.bound p) + List.length a)%nat).
  { unfold Slices.append. cbv zeta.
    now destruct (Nat.leb (Slices.len (Slices.bound p) + List.length a)
                    (Slices.cap (Slices.bound p))). }
  destruct (Slices.append growth h (Slices.bound p) a) as [h1 s1]. cbn [fst snd] in *.
  cbn [Slices.fields Slices.bound].
  pose proof (append_elems h1 s1 b Hc1) as A2.
  destruct (append_inHeap_parent h1 s1 b Hc1) as [_ P2].
  assert (P3 : Slices.elems (fst (Slices.append growth h1 s1 b)) (Slices.bound p)
               = Slices.elems h1 (Slices.bound p)).
  { apply append_elems_before; [assumption|apply Hp1|lia]. }
  destruct (Slices.append growth h1 s1 b) as [h2 s2]. cbn [fst snd] in *.
  cbn [Slices.fields Slices.bound].
  split; [|split; [|split]].
  - rewrite (view_elems h h1 p s1 a A1). apply log_With.
  - rewrite (view_elems h h2 p s2 (a ++ b)).
    + rewrite log_With. now rewrite <- app_assoc.
    + rewrite A2, A1. now rewrite <- app_assoc.
  - unfold Slices.view. cbn [Slices.fields Slices.bound]. now rewrite P2.
  - unfold Slices.view. now rewrite P3, P1.
Qed.

End Siblings.

(** ** Caller resolution without helpers, and the order of marks *)

Lemma walkFrames_no_helpers (frames : list Frame) :
  walkFrames [] frames = hd zeroFrame frames.
Proof.
  destruct frames as [|f [|g rest]]; reflexivity.
Qed.

Lemma hd_firstn_skipn {A : Type} (z : A) (m n : nat) (l : list A) :
  hd z (firstn (S m) (skipn n l)) = nth n l z.
Proof.
  revert l. induction n as [|n IH]; intros [|x l]; cbn; auto.
  rewrite <- IH. reflexivity.
Qed.

(** X20. With no function marked as helper, [fillLoc] reports frame
    [skip + 2] of the stack at its call of [runtime.Callers], and the zero
    frame when the stack is not that deep. *)
Theorem fillLoc_without_helpers (l : logger) (stack : list Frame) (skip : Z) :
  helpers l = [] ->
  fillLoc l stack skip
  = (File (nth (Z.to_nat (skip + 2)) stack zeroFrame),
     Line (nth (Z.to_nat (skip + 2)) stack zeroFrame),
     Function (nth (Z.to_nat (skip + 2)) stack zeroFrame)).
Proof.
  intros H. unfold fillLoc, Callers, maxStackLen. cbv zeta.
  rewrite H, walkFrames_no_helpers, hd_firstn_skipn. reflexivity.
Qed.

Lemma isHelper_LoadOrStore_eq (hs : list string) (fn x : string) :
  isHelper (LoadOrStore hs fn) x = String.eqb x fn || isHelper hs x.
Proof.
  unfold LoadOrStore. destruct (isHelper hs fn) eqn:E; [|reflexivity].
  destruct (String.eqb_spec x fn) as [->|_]; [|reflexivity].
  now rewrite E.
Qed.

Lemma walkFrames_ext (hs hs' : list string) (frames : list Frame) :
  (forall f, In f frames -> isHelper hs (Function f) = isHelper hs' (Function f)) ->
  walkFrames hs frames = walkFrames hs' frames.
Proof.
  induction frames as [|f rest IH]; intros H; [reflexivity|].
  cbn [walkFrames]. destruct rest as [|g rest]; [reflexivity|].
  rewrite (H f) by now left.
  destruct (negb (isHelper hs' (Function f))); [reflexivity|].
  apply IH. intros x Hx. apply H. now right.
Qed.

(** X21. The order in which two functions are marked as helpers does not
    change what [fillLoc] reports; and marking a function to which none of
    the captured frames belongs changes nothing. *)
Theorem helper_marks_commute (l : logger) (sa sb : list Frame) (ka kb : Z)
    (stack : list Frame) (skip : Z) :
  fillLoc (helper (helper l sa ka) sb kb) stack skip
  = fillLoc (helper (helper l sb kb) sa ka) stack skip
  /\ (Forall (fun f => Function f <> Function (nth (Z.to_nat (ka + 2)) sa zeroFrame))
        (Callers stack (skip + 2) maxStackLen) ->
      fillLoc (helper l sa ka) stack skip = fillLoc l stack skip).
Proof.
  unfold helper, location. cbv zeta.
  replace (Z.to_nat (ka + 1 + 1)) with (Z.to_nat (ka + 2)) by (f_equal; lia).
  replace (Z.to_nat (kb + 1 + 1)) with (Z.to_nat (kb + 2)) by (f_equal; lia).
  unfold fillLoc. cbv zeta. cbn [setHelpers helpers]. split.
  - rewrite (walkFrames_ext
               (LoadOrStore (LoadOrStore (helpers l)
                  (Function (nth (Z.to_nat (ka + 2)) sa zeroFrame)))
                  (Function (nth (Z.to_nat (kb + 2)) sb zeroFrame)))
               (LoadOrStore (LoadOrStore (helpers l)
                  (Function (nth (Z.to_nat (kb + 2)) sb zeroFrame)))
                  (Function (nth (Z.to_nat (ka + 2)) sa zeroFrame))));
      [reflexivity|].
    intros f _. rewrite !isHelper_LoadOrStore_eq.
    destruct (String.eqb _ _), (String.eqb _ _); reflexivity.
  - intros Hall.
    rewrite (walkFrames_ext
               (LoadOrStore (helpers l) (Function (nth (Z.to_nat (ka + 2)) sa zeroFrame)))
               (helpers l)); [reflexivity|].
    intros f Hin. rewrite isHelper_LoadOrStore_eq.
    rewrite Forall_forall in Hall. specialize (Hall f Hin).
    apply String.eqb_neq in Hall. now rewrite Hall.
Qed.

(** ** Path trimming, for every path *)

Lemma countByte_app (c : ascii) (a b : string) :
  countByte c (a ++ b) = (countByte c a + countByte c b)%nat.
Proof.
  induction a as [|x a IH]; cbn [append countByte]; [reflexivity|].
  rewrite IH. lia.
Qed.

Lemma LastIndexByte_None_count (s : string) (c : ascii) :
  LastIndexByte s c = None -> countByte c s = 0%nat.
Proof.
  induction s as [|x s IH]; cbn [LastIndexByte countByte]; [reflexivity|].
  destruct (LastIndexByte s c); [discriminate|].
  destruct (Ascii.eqb x c); [discriminate|]. intros _. now rewrite IH.
Qed.

Lemma LastIndexByte_split (s : string) (c : ascii) (i : nat) :
  LastIndexByte s c = Some i ->
  exists a b, s = a ++ String c b /\ LastIndexByte b c = None.
Proof.
  revert i. induction s as [|x s IH]; cbn [LastIndexByte]; [discriminate|].
  intros i. destruct (LastIndexByte s c) as [j|] eqn:E.
  - intros _. destruct (IH j eq_refl) as (a & b & -> & Hb).
    exists (String x a), b. split; [reflexivity|assumption].
  - destruct (Ascii.eqb_spec x c) as [->|_]; [|discriminate].
    intros _. exists EmptyString, s. split; [reflexivity|assumption].
Qed.

(** X22. [trimCallerPath] returns a path with at most one separator as it
    is; from a path with two separators or more it returns what follows the
    last but one, which holds exactly one separator; and applying it twice
    is applying it once. *)
Theorem trimCallerPath_last_two_segments (path : string) :
  ((countByte "/" path <= 1)%nat -> trimCallerPath path = path)
  /\ ((2 <= countByte "/" path)%nat ->
      countByte "/" (trimCallerPath path) = 1%nat
      /\ exists pre, path = pre ++ String "/" (trimCallerPath path))
  /\ trimCallerPath (trimCallerPath path) = trimCallerPath path.
Proof.
  destruct trimCallerPath_spec as (H0 & H1 & H2).
  destruct (LastIndexByte path "/") as [i|] eqn:E.
  - destruct (LastIndexByte_split _ _ _ E) as (a & file & -> & Hfile).
    destruct (LastIndexByte a "/") as [j|] eqn:Ea.
    + destruct (LastIndexByte_split _ _ _ Ea) as (pre & dir & -> & Hdir).
      assert (Ht : trimCallerPath ((pre ++ String "/" dir) ++ String "/" file)
                   = dir ++ String "/" file).
      { rewrite append_assoc. cbn [append]. now apply H2. }
      rewrite Ht. split; [|split].
      * intros H. exfalso. rewrite !countByte_app in H. cbn [countByte] in H.
        rewrite ?countByte_app in H. cbn [countByte] in H.
        rewrite Ascii.eqb_refl in H. lia.
      * intros _. split.
        -- rewrite countByte_app. cbn [countByte]. rewrite Ascii.eqb_refl.
           rewrite (LastIndexByte_None_count _ _ Hdir),
             (LastIndexByte_None_count _ _ Hfile). reflexivity.
        -- exists pre. rewrite append_assoc. reflexivity.
      * now apply H1.
    + rewrite (H1 a file Ea Hfile). split; [reflexivity|]. split.
      * rewrite countByte_app. cbn [countByte]. rewrite Ascii.eqb_refl.
        rewrite (LastIndexByte_None_count _ _ Ea),
          (LastIndexByte_None_count _ _ Hfile). cbn. lia.
      * now apply H1.
  - rewrite (H0 path E). split; [reflexivity|]. split.
    + rewrite (LastIndexByte_None_count _ _ E). lia.
    + now apply H0.
Qed.

(** ** The further properties on concrete inputs *)

Lemma needsQuoting_iff_byte_outside_normal_range_witness :
  needsQuoting "a=b/c.d" = false
  /\ escapeStringForOutput exampleTables "a=b/c.d" true = "a=b/c.d".
Proof.
  split; [reflexivity|].
  apply (proj2 (needsQuoting_iff_byte_outside_normal_range exampleTables "a=b/c.d")
           eq_refl).
Defined.

(** The byte 0xFF is no UTF-8; the escaped form of 0xFF, line feed is. *)
Lemma escape_output_valid_utf8_witness :
  ValidString (String (zbyte 255) (str1 LF)) = false
  /\ needsEscaping exampleTables (String (zbyte 255) (str1 LF)) = true
  /\ ValidString (escapeStringForOutput exampleTables (String (zbyte 255) (str1 LF)) false)
     = true.
Proof.
  split; [reflexivity|]. split; [reflexivity|].
  apply (proj1 (escape_output_valid_utf8 exampleTables
                  (String (zbyte 255) (str1 LF)) false)).
  reflexivity.
Defined.

Lemma escape_of_valid_concatenation_witness :
  escapeStringForOutput exampleTables ("tab" ++ String (zbyte 9) "│" ++ "plain") true
  = escapeStringForOutput exampleTables ("tab" ++ String (zbyte 9) "│") true ++ "plain".
Proof.
  exact (proj1 (escape_of_valid_concatenation exampleTables
                  ("tab" ++ String (zbyte 9) "│") "plain" true eq_refl eq_refl)).
Defined.

(** A line feed and a carriage return are told apart; the bytes backslash,
    n and the line feed are not. *)
Lemma escape_injective_without_backslash_witness :
  hasBackslash ("a" ++ str1 LF) = false
  /\ hasBackslash ("a" ++ str1 (zbyte 13)) = false
  /\ escapeStringForOutput exampleTables ("a" ++ str1 LF) false
     <> escapeStringForOutput exampleTables ("a" ++ str1 (zbyte 13)) false
  /\ escapeStringForOutput exampleTables ("\n" ++ str1 (zbyte 9)) false
     = escapeStringForOutput exampleTables (String LF (str1 (zbyte 9))) false.
Proof.
  split; [reflexivity|]. split; [reflexivity|]. split; [|reflexivity].
  intros E.
  pose proof (escape_injective_without_backslash exampleTables ("a" ++ str1 LF)
                ("a" ++ str1 (zbyte 13)) false eq_refl eq_refl eq_refl eq_refl E) as H.
  discriminate H.
Defined.

Lemma escape_output_has_no_control_byte_witness :
  containsByte ("a" ++ String LF "b") LF = true
  /\ containsByte (escapeStringForOutput exampleTables ("a" ++ String LF "b") true) LF
     = false.
Proof.
  split; [reflexivity|].
  apply (escape_output_has_no_control_byte exampleTables ("a" ++ String LF "b") true LF).
  left. rewrite byteZ_LF. lia.
Defined.

(** A tab inside a value is escaped, and the entry stays on one line. *)
Lemma entry_without_line_feed_is_one_line_witness :
  exists line,
    textFormatter exampleTables exampleDecls plainStyles EmptyString
      [VString "lvl"; VLevel 2; VString "msg"; VString "disk almost full";
       VString "path"; VString ("C:" ++ String (zbyte 9) "tmp");
       VString "free"; VOther "12" "12"]
    = Some (line ++ str1 LF)
    /\ containsByte line LF = false.
Proof.
  apply (entry_without_line_feed_is_one_line exampleTables exampleDecls plainStyles
           EmptyString
           [VString "lvl"; VLevel 2; VString "msg"; VString "disk almost full";
            VString "path"; VString ("C:" ++ String (zbyte 9) "tmp"); VString "free";
            VOther "12" "12"]
           plainStyles_disabled eq_refl eq_refl).
Defined.

Lemma unstyled_writers_agree_witness :
  LoggerGo.writeIndent exampleTables ("line1" ++ str1 LF ++ "line2") "  │ " true
  = writeIndent exampleTables plainStyles ("line1" ++ str1 LF ++ "line2") "  │ " true
      "trace".
Proof.
  apply (proj1 (unstyled_writers_agree exampleTables plainStyles
                  ("line1" ++ str1 LF ++ "line2") "  │ " true false "trace"
                  plainStyles_disabled)).
Defined.

(** A value of two lines with a quote and a tab in the first one. *)
Lemma block_lines_are_the_value_lines_witness :
  segments (writeIndent exampleTables plainStyles
              ("open " ++ String DQ ("a" ++ String (zbyte 9) "b" ++ str1 LF ++ "done"))
              "  │ " false "trace")
  = ["  │ open " ++ String DQ "a\tb"; "  │ done"].
Proof.
  rewrite (proj1 (block_lines_are_the_value_lines exampleTables plainStyles
                    ("open " ++ String DQ ("a" ++ String (zbyte 9) "b" ++ str1 LF ++ "done"))
                    "  │ " "trace" plainStyles_disabled eq_refl ltac:(discriminate))).
  reflexivity.
Defined.

Lemma textFormatter_panics_iff_odd_witness :
  textFormatter exampleTables exampleDecls plainStyles EmptyString
    [VString "key1"; VString "val1"; VString "key2"]
  = None.
Proof.
  apply (proj2 (proj1 (textFormatter_panics_iff_odd exampleTables exampleDecls
                         plainStyles EmptyString
                         [VString "key1"; VString "val1"; VString "key2"]))).
  reflexivity.
Defined.

(** One bound key without value and one call key without value: the two make
    a pair, and nothing panics. *)
Lemma log_panics_iff_odd_total_witness :
  w (With exampleLogger [VString "service"]) = Sink
  /\ level (With exampleLogger [VString "service"]) <= 1
  /\ Info exampleTables exampleDecls plainStyles
       (With exampleLogger [VString "service"]) exampleStack (VString "info")
       [VString "key1"; VString "val1"]
     = Formatted
         (assemble exampleDecls (With exampleLogger [VString "service"]) exampleStack 1
            (VString "info") [VString "key1"; VString "val1"])
         None
  /\ Info exampleTables exampleDecls plainStyles
       (With exampleLogger [VString "service"]) exampleStack (VString "info")
       [VString "api"]
     = Formatted
         [VString "lvl"; VLevel 1; VString "msg"; VString "info";
          VString "service"; VString "api"]
         (Some ("INFO info service=api" ++ str1 LF)).
Proof.
  split; [reflexivity|]. split; [cbn; lia|]. split; [|reflexivity].
  apply (proj2 (proj1 (log_panics_iff_odd_total exampleTables exampleDecls plainStyles
                         (With exampleLogger [VString "service"]) exampleStack 1
                         (VString "info") [VString "key1"; VString "val1"]
                         eq_refl ltac:(cbn; lia) eq_refl))).
  reflexivity.
Defined.

(** A logger switched off: [Fatal] writes nothing and exits. *)
Lemma Fatal_exits_even_when_suppressed_witness :
  FatalLevel exampleDecls < level (SetLevel exampleLogger (OffLevel exampleDecls))
  /\ Fatal exampleTables exampleDecls plainStyles
       (SetLevel exampleLogger (OffLevel exampleDecls)) exampleStack
       (VString "out of memory") []
     = (Skipped, Exit 1).
Proof.
  split; [cbn; lia|].
  apply (proj1 (Fatal_exits_even_when_suppressed exampleTables exampleDecls plainStyles
                  (SetLevel exampleLogger (OffLevel exampleDecls)) exampleStack
                  (VString "out of memory") [])).
  right. cbn. lia.
Defined.

Lemma setters_act_as_switches_witness :
  Error exampleTables exampleDecls plainStyles
    (SetLevel exampleLogger (DebugLevel exampleDecls)) exampleStack (VString "info") []
  = Error exampleTables exampleDecls plainStyles exampleLogger exampleStack
      (VString "info") [].
Proof.
  apply (proj1 (proj2 (proj2 (setters_act_as_switches exampleTables exampleDecls
                                plainStyles exampleLogger (DebugLevel exampleDecls)
                                exampleStack (ErrorLevel exampleDecls)
                                (VString "info") [])))).
  - cbn. lia.
  - cbn. lia.
Defined.

Lemma header_follows_the_setters_witness :
  log exampleTables exampleDecls plainStyles
    (SetPrefix
       (SetTimeFunction
          (SetTimeFormat (EnableTimestamp (DisableCaller exampleLogger)) "unix")
          (fun _ => 1700000000)) "api")
    exampleStack 3 (VString "disk full") []
  = Formatted
      [VString "ts"; VTime 1700000000; VString "lvl"; VLevel 3;
       VString "prefix"; VString "api"; VString "msg"; VString "disk full"]
      (Some ("1700000000 ERROR api: disk full" ++ str1 LF)).
Proof.
  rewrite (proj1 (header_follows_the_setters exampleTables exampleDecls plainStyles
                    exampleLogger exampleStack 3 (fun _ => 1700000000) "unix" "api"
                    "disk full" exampleDecls_keysDistinct
                    eq_refl eq_refl eq_refl ltac:(cbn; lia)
                    ltac:(cbn; lia) ltac:(discriminate))).
  reflexivity.
Defined.

Lemma entry_without_level_or_message_witness :
  Info exampleTables exampleDecls plainStyles exampleLogger exampleStack VNil []
  = Formatted [VString "lvl"; VLevel 1] (Some ("INFO" ++ str1 LF)).
Proof.
  apply (proj1 (entry_without_level_or_message exampleTables exampleDecls plainStyles
                  exampleLogger exampleStack (InfoLevel exampleDecls) EmptyString
                  exampleDecls_keysDistinct
                  eq_refl eq_refl eq_refl eq_refl eq_refl eq_refl)).
  - cbn. lia.
  - cbn. lia.
Defined.

(** The fourth case of TestLogger (log_test.go). *)
Lemma entry_of_bare_pairs_witness :
  log exampleTables exampleDecls plainStyles exampleLogger exampleStack 3 (VString "info")
    (pairValues [("key1", "val1"); ("key2", "val2")])
  = Formatted
      [VString "lvl"; VLevel 3; VString "msg"; VString "info";
       VString "key1"; VString "val1"; VString "key2"; VString "val2"]
      (Some ("ERROR info key1=val1 key2=val2" ++ str1 LF)).
Proof.
  rewrite (entry_of_bare_pairs exampleTables exampleDecls plainStyles
             exampleLogger exampleStack 3 (VString "info")
             [("key1", "val1"); ("key2", "val2")]
             exampleDecls_keysDistinct eq_refl eq_refl
             ltac:(cbn; lia) ltac:(cbn; lia) eq_refl eq_refl eq_refl eq_refl
             ltac:(discriminate)).
  - reflexivity.
  - repeat constructor; discriminate.
Defined.

(** A logger derived from the logger [New] builds, and one derived from
    that one. *)
Lemma With_binds_fields_in_front_witness :
  Slices.inHeap [[]] (Slices.bound rootLogger)
  /\ (forall c n : nat, (n <= doubling c n)%nat)
  /\ Info exampleTables exampleDecls plainStyles
       (Slices.view
          (fst (Slices.With doubling
                  (fst (Slices.With doubling [[]] rootLogger
                          [VString "service"; VString "api"]))
                  (snd (Slices.With doubling [[]] rootLogger
                          [VString "service"; VString "api"]))
                  [VString "region"; VString "eu"]))
          (snd (Slices.With doubling
                  (fst (Slices.With doubling [[]] rootLogger
                          [VString "service"; VString "api"]))
                  (snd (Slices.With doubling [[]] rootLogger
                          [VString "service"; VString "api"]))
                  [VString "region"; VString "eu"])))
       exampleStack (VString "hello") [VString "user"; VString "alice"]
     = Formatted
         [VString "lvl"; VLevel 1; VString "msg"; VString "hello";
          VString "service"; VString "api"; VString "region"; VString "eu";
          VString "user"; VString "alice"]
         (Some ("INFO hello service=api region=eu user=alice" ++ str1 LF)).
Proof.
  assert (Hh : Slices.inHeap [[]] (Slices.bound rootLogger))
    by (repeat split; cbn; lia).
  assert (Hg : forall c n : nat, (n <= doubling c n)%nat)
    by (intros c n; unfold doubling; lia).
  split; [exact Hh|]. split; [exact Hg|].
  unfold Info.
  rewrite (proj1 (proj2 (With_binds_fields_in_front exampleTables exampleDecls
                           plainStyles doubling [[]] rootLogger
                           [VString "service"; VString "api"]
                           [VString "region"; VString "eu"] exampleStack
                           (InfoLevel exampleDecls) (VString "hello")
                           [VString "user"; VString "alice"] Hh Hg))).
  reflexivity.
Defined.

(** Two loggers derived from the same parent, one for alice and one for bob:
    after the second derivation the first logger writes bob. *)
Lemma With_siblings_share_the_array_witness :
  Slices.bound (snd thirdDerivation)
  = {| Slices.array := 3; Slices.len := 6; Slices.cap := 8 |}
  /\ Info exampleTables exampleDecls plainStyles
       (Slices.view
          (fst (Slices.With doubling
                  (fst (Slices.With doubling (fst thirdDerivation) (snd thirdDerivation)
                          [VString "user"; VString "alice"]))
                  (snd thirdDerivation) [VString "user"; VString "bob"]))
          (snd (Slices.With doubling (fst thirdDerivation) (snd thirdDerivation)
                  [VString "user"; VString "alice"])))
       exampleStack (VString "hello") []
     = Formatted
         [VString "lvl"; VLevel 1; VString "msg"; VString "hello";
          VString "service"; VString "api"; VString "region"; VString "eu";
          VString "zone"; VString "a"; VString "user"; VString "bob"]
         (Some ("INFO hello service=api region=eu zone=a user=bob" ++ str1 LF)).
Proof.
  split; [reflexivity|].
  rewrite (proj1 (proj2 (proj2 (proj2
             (With_siblings_share_the_array doubling (fst thirdDerivation)
                (snd thirdDerivation) [VString "user"; VString "alice"]
                [VString "user"; VString "bob"]
                ltac:(repeat split; cbn; lia)))))
             ltac:(cbn; lia) eq_refl).
  reflexivity.
Defined.

Lemma fillLoc_without_helpers_witness :
  helpers exampleLogger = []
  /\ fillLoc exampleLogger exampleStack 2 = ("/src/app/main.go", 12, "main.main").
Proof.
  split; [reflexivity|].
  rewrite (fillLoc_without_helpers exampleLogger exampleStack 2 eq_refl).
  reflexivity.
Defined.

(** Marking a function that is not on the stack of the call. *)
Lemma helper_marks_commute_witness :
  fillLoc (helper exampleLogger helperCallStack 1) exampleStack 2
  = fillLoc exampleLogger exampleStack 2.
Proof.
  apply (proj2 (helper_marks_commute exampleLogger helperCallStack helperCallStack 1 1
                  exampleStack 2)).
  repeat constructor; discriminate.
Defined.

Lemma trimCallerPath_last_two_segments_witness :
  (2 <= countByte "/" "/home/dev/src/app/main.go")%nat
  /\ trimCallerPath "/home/dev/src/app/main.go" = "app/main.go"
  /\ countByte "/" (trimCallerPath "/home/dev/src/app/main.go") = 1%nat.
Proof.
  split; [cbn; lia|]. split; [reflexivity|].
  apply (proj1 (proj2 (trimCallerPath_last_two_segments "/home/dev/src/app/main.go"))).
  cbn. lia.
Defined.
